(** * ELLie: the tree-walking evaluator of [src/boi.py]

    A shallow embedding of the evaluator: the [Context] frame stack, the AST
    node classes with their [eval] methods, [Function]'s call protocol and
    [Program.run], followed by the properties of the specification that are
    settled on it.

    Python objects are modelled as follows.
    - A [Value] holds an IEEE-754 double: Rocq's primitive [float].
    - [eval] returns either a [Value] object or a raw Python [bool]
      (comparisons and conditions): the type [Obj].
    - A stack frame is one Python [dict] holding variables under [str] keys
      and functions under [(str, int)] tuple keys.  The two key shapes never
      compare equal, so the dict is the disjoint union of two finite maps,
      kept here as the two fields of [Frame].
    - A [Function] object carries the mutable attribute [argv].  Function
      objects are shared by reference (the same object sits in the frame
      stack and is armed by every call site), so the attribute lives in a
      store indexed by the identity of the object, [fn_id].
    - A raised exception leaves the mutated context behind: every operation
      returns its outcome together with the state it leaves. *)

From Stdlib Require Import ZArith Floats.
From stdpp Require Import base option list strings gmap pretty.

Set Default Proof Using "Type".
Set Warnings "-register-all".
Local Open Scope Z_scope.

(** ** Spans, exceptions and runtime objects *)

Record Span := mkSpan { start : Z; end_ : Z; slice : string }.

Definition Span_EMPTY : Span := mkSpan 0 0 "".

(** The exceptions the source can raise.  [InterpreterException] is the
    class of the source; the others are Python's own. *)
Inductive PyExn :=
| InterpreterException (reason : string) (span : Span)
| Exception (msg : string)
| TypeError (msg : string)
| AttributeError (msg : string)
| AssertionError
| IndexError.

(** What [eval] can return: a [Value] object or a raw [bool]. *)
Inductive Obj :=
| Value (value : float) (span : Span)
| PyBool (b : bool).

Record Var := mkVar { name : string; var_span : Span }.

(** ** The AST *)

Inductive AdditiveOp := ADDITION | SUBTRACTION.
Inductive ComparisonOp := GT | GTE | LT | LTE | EQ | NEQ.

(** [ExprBase] is a direct instance of the base class [Expr], whose [eval]
    is the unimplemented [AST.eval].  [LambdaExpr] carries the identity of
    the [Function] object it builds in its constructor ([as_fn]). *)
Inductive Expr :=
| ExprBase (span : Span)
| ValueE (value : float) (span : Span)
| VarE (var : Var)
| AdditiveExpr (lhs : Expr) (operator : AdditiveOp) (rhs : Expr) (span : Span)
| ConditionExpr (condition : Expr) (span : Span)
| ComparisonExpr (lhs : Expr) (operator : ComparisonOp) (rhs : Expr) (span : Span)
| LambdaExpr (as_fn_id : positive) (lname : string) (args : list Var)
             (value : Expr) (body : Expr) (span : Span)
| LetExpr (lname : Var) (value : Expr) (body : Expr) (span : Span)
| FunctionCall (fname : Var) (argv : list Expr) (span : Span)
| IfExpr (condition : Expr) (true_expr : Expr) (false_expr : Expr) (span : Span).

Record Function := mkFunction {
  fn_id : positive;
  fn_name : Var;
  fn_args : list Var;
  fn_body : Expr;
  fn_span : Span;
  is_lambda : bool
}.

(** [self.as_fn = Function(Var(name, span), args, value, span, is_lambda=True)] *)
Definition as_fn (id : positive) (lname : string) (args : list Var)
    (value : Expr) (span : Span) : Function :=
  mkFunction id (mkVar lname span) args value span true.

(** ** The state: the [Context] and the [argv] attribute of each Function *)

Record Frame := mkFrame {
  variables : gmap string Obj;
  functions : gmap (string * nat) Function
}.

Definition empty_frame : Frame := mkFrame ∅ ∅.

Record State := mkState {
  stack_frames : list Frame;
  fn_argv : gmap positive (list Obj)
}.

(** [Context()] : one empty frame; no function is armed. *)
Definition Context_init : State := mkState [empty_frame] ∅.

Definition set_frames (fs : list Frame) (s : State) : State :=
  mkState fs (fn_argv s).

Definition set_argv (a : gmap positive (list Obj)) (s : State) : State :=
  mkState (stack_frames s) a.

(** ** Outcomes and the evaluation monad *)

Inductive Outcome (A : Type) :=
| Ok (a : A)
| Raise (e : PyExn)
| OutOfFuel.
Arguments Ok {A} a.
Arguments Raise {A} e.
Arguments OutOfFuel {A}.

Definition M (A : Type) : Type := State → Outcome A * State.

Definition ret {A} (a : A) : M A := λ s, (Ok a, s).
Definition raise {A} (e : PyExn) : M A := λ s, (Raise e, s).
Definition bind {A B} (m : M A) (k : A → M B) : M B :=
  λ s, match m s with
       | (Ok a, s') => k a s'
       | (Raise e, s') => (Raise e, s')
       | (OutOfFuel, s') => (OutOfFuel, s')
       end.

Notation "x <- m ;; k" := (bind m (λ x, k))
  (at level 100, m at next level, right associativity).
Notation "m ;;; k" := (bind m (λ _, k))
  (at level 100, right associativity).

Definition py_assert (b : bool) : M unit :=
  if b then ret tt else raise AssertionError.

(** ** Context *)

Definition push_stack_frame : M unit :=
  λ s, (Ok tt, set_frames (stack_frames s ++ [empty_frame]) s).

(** [list.pop()] : removes and returns the last item, [IndexError] on an
    empty list. *)
Definition pop_stack_frame : M Frame :=
  λ s, match last (stack_frames s) with
       | Some f => (Ok f, set_frames (removelast (stack_frames s)) s)
       | None => (Raise IndexError, s)
       end.

Definition current_stack_frame : M Frame :=
  λ s, match last (stack_frames s) with
       | Some f => (Ok f, s)
       | None => (Raise AssertionError, s)
       end.

(** Assignment into the dict that [current_stack_frame] returned: the dict
    is the last element of [stack_frames], updated in place. *)
Definition update_current (f : Frame) : M unit :=
  λ s, (Ok tt, set_frames (removelast (stack_frames s) ++ [f]) s).

Definition push_var (var : Var) (value : Obj) : M unit :=
  sf <- current_stack_frame ;;
  match variables sf !! name var with
  | Some _ => raise (InterpreterException "name shadowing is not supported" Span_EMPTY)
  | None => update_current (mkFrame (<[name var := value]> (variables sf)) (functions sf))
  end.

Definition pop_var (var : Var) : M Obj :=
  sf <- current_stack_frame ;;
  match variables sf !! name var with
  | Some v =>
      update_current (mkFrame (delete (name var) (variables sf)) (functions sf)) ;;;
      ret v
  | None =>
      raise (InterpreterException
        "tried to pop var which hasn't been added to the current stack frame"
        (var_span var))
  end.

(** [for arg, value in zip(args, values): self.push_var(arg, value)] *)
Fixpoint push_args_loop (args : list Var) (values : list Obj) : M unit :=
  match args, values with
  | arg :: args', value :: values' =>
      push_var arg value ;;; push_args_loop args' values'
  | _, _ => ret tt
  end.

Definition push_args (args : list Var) (values : list Obj) : M unit :=
  py_assert (bool_decide (length args = length values)) ;;;
  push_args_loop args values.

(** [list(map(lambda arg: self.pop_var(arg), args))] *)
Fixpoint pop_args (args : list Var) : M (list Obj) :=
  match args with
  | [] => ret []
  | arg :: args' =>
      v <- pop_var arg ;;
      vs <- pop_args args' ;;
      ret (v :: vs)
  end.

Definition already_defined (fname : string) (argn : nat) : string :=
  "function '" +:+ fname +:+ "' with " +:+ pretty argn +:+
  " arguments is already defined, and name shadowing is not supported".

Definition push_function (fn : Function) : M unit :=
  sf <- current_stack_frame ;;
  let argn := length (fn_args fn) in
  match functions sf !! (name (fn_name fn), argn) with
  | Some _ =>
      raise (InterpreterException (already_defined (name (fn_name fn)) argn) (fn_span fn))
  | None =>
      update_current (mkFrame (variables sf) (<[(name (fn_name fn), argn) := fn]> (functions sf)))
  end.

Definition not_pushed (fname : string) (argn : nat) : string :=
  "tried top pop function '" +:+ fname +:+ "' with " +:+ pretty argn +:+
  " arguments which hasn't been added to the current stack frame".

Definition pop_function (fn : Function) : M Function :=
  sf <- current_stack_frame ;;
  let argn := length (fn_args fn) in
  match functions sf !! (name (fn_name fn), argn) with
  | Some f =>
      update_current (mkFrame (variables sf) (delete (name (fn_name fn), argn) (functions sf))) ;;;
      ret f
  | None =>
      raise (InterpreterException (not_pushed (name (fn_name fn)) argn) (fn_span fn))
  end.

(** [self.stack_frames[offset]] for [offset <= 0]: index [0] is the first
    item, a negative index counts from the end. *)
Definition py_index (frames : list Frame) (offset : Z) : option Frame :=
  if decide (offset = 0) then frames !! 0%nat
  else frames !! Z.to_nat (Z.of_nat (length frames) + offset).

(** Returns [Ok None] for Python's [None]. *)
Definition get_stack_frame (offset : Z) : M (option Frame) :=
  py_assert (bool_decide (offset ≤ 0)) ;;;
  λ s, if decide (Z.of_nat (length (stack_frames s)) < Z.abs offset)
       then (Ok None, s)
       else match py_index (stack_frames s) offset with
            | Some f => (Ok (Some f), s)
            | None => (Raise IndexError, s)
            end.

Definition no_such_function (fname : string) (argn : nat) : string :=
  "no such function '" +:+ fname +:+ "' with " +:+ pretty argn +:+ " arguments".

Definition no_variable (vname : string) : string :=
  "no variable with name '" +:+ vname +:+ "'".

(** The [while sf is not None] loop of [get_function]; [n] bounds the
    number of iterations. *)
Fixpoint get_function_loop (n : nat) (var : Var) (argn : nat)
    (sf : option Frame) (offset : Z) : M Function :=
  match sf with
  | None => raise (InterpreterException (no_such_function (name var) argn) (var_span var))
  | Some f =>
      match functions f !! (name var, argn) with
      | Some fn => ret fn
      | None =>
          match n with
          | O => λ s, (OutOfFuel, s)
          | S n' =>
              sf' <- get_stack_frame offset ;;
              get_function_loop n' var argn sf' (offset - 1)
          end
      end
  end.

(** The loop looks at the current frame, then at offsets [-1], [-2], ...
    until [get_stack_frame] answers [None], which it does at offset
    [-(len+1)]: [len + 1] fetches. *)
Definition get_function (var : Var) (argn : nat) : M Function :=
  sf <- current_stack_frame ;;
  λ s, get_function_loop (S (length (stack_frames s))) var argn (Some sf) (-1) s.

Fixpoint get_var_loop (n : nat) (var : Var) (sf : option Frame) (offset : Z) : M Obj :=
  match sf with
  | None => raise (InterpreterException (no_variable (name var)) (var_span var))
  | Some f =>
      match variables f !! name var with
      | Some v => ret v
      | None =>
          match n with
          | O => λ s, (OutOfFuel, s)
          | S n' =>
              sf' <- get_stack_frame offset ;;
              get_var_loop n' var sf' (offset - 1)
          end
      end
  end.

Definition get_var (var : Var) : M Obj :=
  sf <- current_stack_frame ;;
  λ s, get_var_loop (S (length (stack_frames s))) var (Some sf) (-1) s.

(** ** Operators on runtime objects *)

(** What [lhs_value + rhs_value] can produce: a [float] from
    [Value.__add__], an [int] from adding two [bool]s. *)
Inductive PyNum :=
| PyFloat (f : float)
| PyInt (z : Z).

Definition no_value_attr : PyExn :=
  AttributeError "'bool' object has no attribute 'value'".

(** [l + r].  [Value.__add__] reads [other.value]; [bool.__add__] does not
    know [Value], and [Value] has no [__radd__]. *)
Definition py_add (l r : Obj) : M PyNum :=
  match l, r with
  | Value a _, Value b _ => ret (PyFloat (a + b)%float)
  | Value _ _, PyBool _ => raise no_value_attr
  | PyBool _, Value _ _ =>
      raise (TypeError "unsupported operand type(s) for +: 'bool' and 'Value'")
  | PyBool a, PyBool b => ret (PyInt (Z.b2z a + Z.b2z b))
  end.

Definition float_cmp (op : ComparisonOp) (l r : float) : bool :=
  match op with
  | GT => (r <? l)%float
  | GTE => (r <=? l)%float
  | LT => (l <? r)%float
  | LTE => (l <=? r)%float
  | EQ => (l =? r)%float
  | NEQ => negb (l =? r)%float
  end.

Definition int_cmp (op : ComparisonOp) (l r : Z) : bool :=
  match op with
  | GT => l >? r
  | GTE => l >=? r
  | LT => l <? r
  | LTE => l <=? r
  | EQ => l =? r
  | NEQ => negb (l =? r)
  end.

(** [COMPARISON_FNS[op](l, r)]: the rich comparisons of [Value] read
    [other.value]; with a [bool] on the left Python falls back on the
    reflected method of [Value], which reads [.value] of the [bool]. *)
Definition py_compare (op : ComparisonOp) (l r : Obj) : M Obj :=
  match l, r with
  | Value a _, Value b _ => ret (PyBool (float_cmp op a b))
  | PyBool a, PyBool b => ret (PyBool (int_cmp op (Z.b2z a) (Z.b2z b)))
  | _, _ => raise no_value_attr
  end.

(** The members of [ConditionExpr.FALSE_VALUES = [0.0, "", []]]. *)
Inductive PyLit :=
| LFloat (f : float)
| LStr (s : string)
| LEmptyList.

Definition FALSE_VALUES : list PyLit := [LFloat 0%float; LStr ""; LEmptyList].

(** [x == item] for a float [x]. *)
Definition float_eq_lit (x : float) (item : PyLit) : bool :=
  match item with
  | LFloat y => (x =? y)%float
  | _ => false
  end.

(** [x in items] *)
Definition py_in (x : float) (items : list PyLit) : bool :=
  existsb (float_eq_lit x) items.

(** [obj.value] *)
Definition get_value (o : Obj) : M float :=
  match o with
  | Value v _ => ret v
  | PyBool _ => raise no_value_attr
  end.

(** Truth value of an object in [if]: [Value] defines neither [__bool__]
    nor [__len__], so every [Value] is true. *)
Definition truthy (o : Obj) : bool :=
  match o with
  | Value _ _ => true
  | PyBool b => b
  end.

(** ** Function: the call protocol *)

Definition wrong_number : PyExn :=
  Exception "Interpreter Error: Calling function with wrong number of arguments.".

Definition set_args (fn : Function) (argv : list Obj) : M bool :=
  if decide (length argv ≠ length (fn_args fn)) then raise wrong_number
  else λ s, (Ok true, set_argv (<[fn_id fn := argv]> (fn_argv s)) s).

(** [self.argv = None] *)
Definition clear_args (fn : Function) : M unit :=
  λ s, (Ok tt, set_argv (delete (fn_id fn) (fn_argv s)) s).

(** [Function.eval] below its assertion, with [argv] the value of
    [self.argv] and [ev] the evaluator of the body. *)
Definition Function_eval_armed (ev : Expr → M Obj) (fn : Function)
    (argv : list Obj) : M Obj :=
  (if is_lambda fn then ret tt else push_stack_frame) ;;;
  push_args (fn_args fn) argv ;;;
  r <- ev (fn_body fn) ;;
  clear_args fn ;;;
  pop_args (fn_args fn) ;;;
  (if is_lambda fn then ret tt else pop_stack_frame ;;; ret tt) ;;;
  ret r.

(** [Function.eval]: [assert self.argv != None], then the call proper. *)
Definition Function_eval (ev : Expr → M Obj) (fn : Function) : M Obj :=
  λ s, match fn_argv s !! fn_id fn with
       | None => (Raise AssertionError, s)
       | Some argv => Function_eval_armed ev fn argv s
       end.

(** [list(map(lambda exp: exp.eval(context), self.argv))] *)
Fixpoint map_eval (ev : Expr → M Obj) (es : list Expr) : M (list Obj) :=
  match es with
  | [] => ret []
  | e :: es' =>
      v <- ev e ;;
      vs <- map_eval ev es' ;;
      ret (v :: vs)
  end.

(** ** The [eval] methods

    [fuel] bounds the depth of nested [eval] calls. *)
Fixpoint eval (fuel : nat) (e : Expr) : M Obj :=
  match fuel with
  | O => λ s, (OutOfFuel, s)
  | S n =>
      match e with
      | ExprBase _ => raise (Exception "Unimplemented")
      | ValueE v span => ret (Value v span)
      | VarE var => get_var var
      | AdditiveExpr lhs _ rhs span =>
          lhs_value <- eval n lhs ;;
          rhs_value <- eval n rhs ;;
          new_value <- py_add lhs_value rhs_value ;;
          match new_value with
          | PyFloat f => ret (Value f span)
          | PyInt _ => raise AssertionError
          end
      | ConditionExpr condition _ =>
          o <- eval n condition ;;
          v <- get_value o ;;
          ret (PyBool (negb (py_in v FALSE_VALUES)))
      | ComparisonExpr lhs operator rhs _ =>
          l <- eval n lhs ;;
          r <- eval n rhs ;;
          py_compare operator l r
      | LambdaExpr id lname args value body span =>
          push_function (as_fn id lname args value span) ;;;
          result <- eval n body ;;
          pop_function (as_fn id lname args value span) ;;;
          ret result
      | LetExpr lname value body _ =>
          val <- eval n value ;;
          push_var lname val ;;;
          body_value <- eval n body ;;
          pop_var lname ;;;
          ret body_value
      | FunctionCall fname argv _ =>
          fn <- get_function fname (length argv) ;;
          vs <- map_eval (eval n) argv ;;
          set_args fn vs ;;;
          Function_eval (eval n) fn
      | IfExpr condition true_expr false_expr _ =>
          c <- eval n condition ;;
          if truthy c then eval n true_expr else eval n false_expr
      end
  end.

(** ** Program *)

Inductive PyType :=
| TyFunction | TyExpr | TyValue | TyVar | TyAdditiveExpr | TyConditionExpr
| TyComparisonExpr | TyLambdaExpr | TyLetExpr | TyFunctionCall | TyIfExpr
| TyOther.

(** An item of [Program.statements]: a [Function], an expression node, or
    any other object. *)
Inductive Statement :=
| StFunction (fn : Function)
| StExpr (e : Expr)
| StOther.

(** [type(statement)]: the class the object was built from. *)
Definition type_of_expr (e : Expr) : PyType :=
  match e with
  | ExprBase _ => TyExpr
  | ValueE _ _ => TyValue
  | VarE _ => TyVar
  | AdditiveExpr _ _ _ _ => TyAdditiveExpr
  | ConditionExpr _ _ => TyConditionExpr
  | ComparisonExpr _ _ _ _ => TyComparisonExpr
  | LambdaExpr _ _ _ _ _ _ => TyLambdaExpr
  | LetExpr _ _ _ _ => TyLetExpr
  | FunctionCall _ _ _ => TyFunctionCall
  | IfExpr _ _ _ _ => TyIfExpr
  end.

Definition type_of (st : Statement) : PyType :=
  match st with
  | StFunction _ => TyFunction
  | StExpr e => type_of_expr e
  | StOther => TyOther
  end.

Definition expected_function_or_expr : PyExn :=
  TypeError "Expected Function or Expr".

(** One iteration of the loop of [Program.run]. *)
Definition run_statement (fuel : nat) (statement : Statement) : M unit :=
  match type_of statement, statement with
  | TyFunction, StFunction fn => push_function fn
  | TyExpr, StExpr e => eval fuel e ;;; ret tt
  | _, _ => raise expected_function_or_expr
  end.

Fixpoint run (fuel : nat) (statements : list Statement) : M unit :=
  match statements with
  | [] => ret tt
  | statement :: rest => run_statement fuel statement ;;; run fuel rest
  end.

(** ** Reference functions used in the statements *)

(** The frame at the top of the stack, if any. *)
Definition top_frame (s : State) : option Frame := last (stack_frames s).

(** The first binding met when the frames are visited in the given order. *)
Fixpoint first_binding {A} (look : Frame → option A) (frames : list Frame) : option A :=
  match frames with
  | [] => None
  | f :: rest =>
      match look f with
      | Some a => Some a
      | None => first_binding look rest
      end
  end.

(** The frame a non-lambda call evaluates its body in: exactly the
    parameters, bound to the arguments of this call. *)
Definition bind_params (args : list Var) (values : list Obj)
    (vars : gmap string Obj) : gmap string Obj :=
  foldl (λ m av, <[name av.1 := av.2]> m) vars (zip args values).

Definition unbind_params (args : list Var) (vars : gmap string Obj) : gmap string Obj :=
  foldl (λ m a, delete (name a) m) vars args.

Definition call_frame (args : list Var) (values : list Obj) : Frame :=
  mkFrame (bind_params args values ∅) ∅.

Definition shadowing : PyExn :=
  InterpreterException "name shadowing is not supported" Span_EMPTY.

(** The double nearest to the literal [1.4]. *)
Definition one_point_four : float := 0x1.6666666666666p+0%float.

(** An operation keeps the frames when every successful run leaves the
    frame stack as it found it. *)
Definition frames_kept {A} (m : M A) : Prop :=
  ∀ s r s', m s = (Ok r, s') → stack_frames s' = stack_frames s.

(** An operation is blind to the armed arguments when neither its outcome
    nor the frames it leaves depend on the [argv] attributes it starts
    from. *)
Definition argv_blind {A} (m : M A) : Prop :=
  ∀ fs a1 a2,
    (m (mkState fs a1)).1 = (m (mkState fs a2)).1 ∧
    stack_frames (m (mkState fs a1)).2 = stack_frames (m (mkState fs a2)).2.

(** [fn.set_args(argv); return fn.eval(context)] *)
Definition call (ev : Expr → M Obj) (fn : Function) (argv : list Obj) : M Obj :=
  set_args fn argv ;;; Function_eval ev fn.

(** ** Sample programs and states *)

Definition E : Span := Span_EMPTY.
Definition var_ (n : string) : Var := mkVar n E.

(** [sum(a, b) = a + b], registered in the base frame, and [sum(4.0, 5.0)]. *)
Definition sum_fn : Function :=
  mkFunction 1 (var_ "sum") [var_ "a"; var_ "b"]
    (AdditiveExpr (VarE (var_ "a")) ADDITION (VarE (var_ "b")) E) E false.
Definition sum_registered : State :=
  mkState [mkFrame ∅ {[ ("sum", 2%nat) := sum_fn ]}] ∅.
Definition call_sum : Expr :=
  FunctionCall (var_ "sum") [ValueE 4 E; ValueE 5 E] E.

(** [f(n) = if n < 3 then f(n + 1) + n else n]: the recursive call is
    evaluated first, the parameter of the outer level is read after it
    returns. *)
Definition rec_body : Expr :=
  IfExpr (ComparisonExpr (VarE (var_ "n")) LT (ValueE 3 E) E)
    (AdditiveExpr
       (FunctionCall (var_ "f") [AdditiveExpr (VarE (var_ "n")) ADDITION (ValueE 1 E) E] E)
       ADDITION (VarE (var_ "n")) E)
    (VarE (var_ "n")) E.
Definition rec_fn : Function := mkFunction 1 (var_ "f") [var_ "n"] rec_body E false.
Definition rec_base : Frame := mkFrame ∅ {[ ("f", 1%nat) := rec_fn ]}.
Definition rec_registered : State := mkState [rec_base] ∅.

(** The state inside the outer call [f(0.0)], when its body reaches the
    recursive call: the parameter is bound in the frame of the call and the
    [argv] attribute of [f] still holds the outer arguments. *)
Definition inside_outer_call : State :=
  mkState [rec_base; mkFrame {[ "n" := Value 0 E ]} ∅] {[ 1%positive := [Value 0 E] ]}.
Definition inner_call : Expr :=
  FunctionCall (var_ "f") [AdditiveExpr (VarE (var_ "n")) ADDITION (ValueE 1 E) E] E.

(** [let a = 5.0 in b], with [b] unbound. *)
Definition let_unbound : Expr :=
  LetExpr (var_ "a") (ValueE 5 E) (VarE (var_ "b")) E.
Definition a_bound : State := mkState [mkFrame {[ "a" := Value 5 E ]} ∅] ∅.

(** The lambda [lambda(a, b) = a + b] registered in a frame that binds [a]. *)
Definition lambda_fn : Function :=
  as_fn 2 "lambda" [var_ "a"; var_ "b"]
    (AdditiveExpr (VarE (var_ "a")) ADDITION (VarE (var_ "b")) E) E.
Definition lambda_in_a_bound : State :=
  mkState [mkFrame {[ "a" := Value 5 E ]} {[ ("lambda", 2%nat) := lambda_fn ]}] ∅.
Definition call_lambda : Expr :=
  FunctionCall (var_ "lambda") [ValueE 4 E; ValueE 1 E] E.

(** Three frames; [x] is bound in the base frame only. *)
Definition base_x : Frame := mkFrame {[ "x" := Value 7 E ]} ∅.
Definition top_y : Frame := mkFrame {[ "y" := Value 1 E ]} ∅.
Definition three_frames : State := mkState [base_x; empty_frame; top_y] ∅.

(** [g(0.0, 0.0)] where no [g] exists. *)
Definition call_g : Expr := FunctionCall (var_ "g") [ValueE 0 E; ValueE 0 E] E.

(** [x] bound in two frames, with different values, below a frame that
    does not bind it. *)
Definition shadowed_x : State :=
  mkState [base_x; mkFrame {[ "x" := Value 8 E ]} ∅; top_y] ∅.

(** A second [sum], of one parameter. *)
Definition sum1_fn : Function :=
  mkFunction 3 (var_ "sum") [var_ "a"] (VarE (var_ "a")) E false.

(** An operation started on a stack of at least [n] frames leaves at
    least [k] frames, whatever its outcome. *)
Definition stack_bound {A} (n k : nat) (m : M A) : Prop :=
  ∀ s o s', (n ≤ length (stack_frames s))%nat → m s = (o, s') →
            (k ≤ length (stack_frames s'))%nat.

(** [bad(n) = b]: the body reads an unbound variable. *)
Definition bad_fn : Function :=
  mkFunction 4 (var_ "bad") [var_ "n"] (VarE (var_ "b")) E false.

(** [twice(a, a) = a]: a repeated parameter name. *)
Definition twice_fn : Function :=
  mkFunction 5 (var_ "twice") [var_ "a"; var_ "a"] (VarE (var_ "a")) E false.

(** Every function of the frame sits under its own name and arity. *)
Definition well_keyed_frame (f : Frame) : Prop :=
  ∀ n k fn, functions f !! (n, k) = Some fn →
            name (fn_name fn) = n ∧ length (fn_args fn) = k.

Definition well_keyed (s : State) : Prop := Forall well_keyed_frame (stack_frames s).

(** An operation keeps the keys when, started in a well-keyed state, it
    ends in one, does not raise the exception of [set_args], and returns
    only values that satisfy [P]. *)
Definition keeps_keys {A} (P : A → Prop) (m : M A) : Prop :=
  ∀ s o s', well_keyed s → m s = (o, s') →
            well_keyed s' ∧ o ≠ Raise wrong_number ∧ ∀ x, o = Ok x → P x.

(** The key a function is registered under. *)
Definition fn_key (fn : Function) : string * nat :=
  (name (fn_name fn), length (fn_args fn)).

(** [m2] answers what [m1] answers, whenever [m1] answers within its
    depth bound. *)
Definition fuel_le {A} (m1 m2 : M A) : Prop :=
  ∀ s o s', m1 s = (o, s') → o ≠ OutOfFuel → m2 s = (o, s').

(** Expressions that evaluate no [FunctionCall].  The value of a
    [LambdaExpr] is the body of its function, evaluated by calls only. *)
Fixpoint call_free (e : Expr) : bool :=
  match e with
  | ExprBase _ | ValueE _ _ | VarE _ => true
  | AdditiveExpr lhs _ rhs _ => call_free lhs && call_free rhs
  | ConditionExpr condition _ => call_free condition
  | ComparisonExpr lhs _ rhs _ => call_free lhs && call_free rhs
  | LambdaExpr _ _ _ _ body _ => call_free body
  | LetExpr _ value body _ => call_free value && call_free body
  | FunctionCall _ _ _ => false
  | IfExpr condition true_expr false_expr _ =>
      call_free condition && call_free true_expr && call_free false_expr
  end.

(** The nesting depth of the nodes [eval] visits in a call-free
    expression. *)
Fixpoint height (e : Expr) : nat :=
  match e with
  | ExprBase _ | ValueE _ _ | VarE _ | FunctionCall _ _ _ => 1
  | AdditiveExpr lhs _ rhs _ => S (height lhs `max` height rhs)
  | ConditionExpr condition _ => S (height condition)
  | ComparisonExpr lhs _ rhs _ => S (height lhs `max` height rhs)
  | LambdaExpr _ _ _ _ body _ => S (height body)
  | LetExpr _ value body _ => S (height value `max` height body)
  | IfExpr condition true_expr false_expr _ =>
      S (height condition `max` (height true_expr `max` height false_expr))
  end.

(** An operation that always comes to an answer. *)
Definition answers {A} (m : M A) : Prop := ∀ s, (m s).1 ≠ OutOfFuel.

(** [reader(n) = y]: the body reads a variable that is not a parameter. *)
Definition reader_fn : Function :=
  mkFunction 6 (var_ "reader") [var_ "n"] (VarE (var_ "y")) E false.

(** ** The frame stack *)

Lemma bind_Ok {A B} (m : M A) (k : A → M B) (s s' : State) (x : A) :
  m s = (Ok x, s') → bind m k s = k x s'.
Proof. unfold bind. by intros ->. Qed.

Lemma bind_Raise {A B} (m : M A) (k : A → M B) (s s' : State) (e : PyExn) :
  m s = (Raise e, s') → bind m k s = (Raise e, s').
Proof. unfold bind. by intros ->. Qed.

Section context.
Implicit Types (s : State) (fs : list Frame) (f : Frame)
  (a : gmap positive (list Obj)) (var : Var).

Lemma state_eta s : s = mkState (stack_frames s) (fn_argv s).
Proof. by destruct s. Qed.

Lemma frames_snoc_or_nil fs : fs = [] ∨ ∃ fs' f, fs = fs' ++ [f].
Proof.
  destruct (last fs) as [f|] eqn:E.
  - right. apply last_Some in E as [fs' ->]. eauto.
  - left. by apply last_None.
Qed.

Lemma current_stack_frame_snoc fs f a :
  current_stack_frame (mkState (fs ++ [f]) a) = (Ok f, mkState (fs ++ [f]) a).
Proof. unfold current_stack_frame. simpl. by rewrite last_snoc. Qed.

Lemma current_stack_frame_nil a :
  current_stack_frame (mkState [] a) = (Raise AssertionError, mkState [] a).
Proof. done. Qed.

Lemma update_current_snoc fs f f' a :
  update_current f' (mkState (fs ++ [f]) a) = (Ok tt, mkState (fs ++ [f']) a).
Proof. unfold update_current, set_frames. simpl. by rewrite removelast_last. Qed.

Lemma push_var_snoc fs f a var v :
  push_var var v (mkState (fs ++ [f]) a) =
  match variables f !! name var with
  | Some _ => (Raise shadowing, mkState (fs ++ [f]) a)
  | None =>
      (Ok tt, mkState (fs ++ [mkFrame (<[name var := v]> (variables f)) (functions f)]) a)
  end.
Proof.
  unfold push_var, bind. rewrite current_stack_frame_snoc.
  destruct (variables f !! name var); [done|]. by rewrite update_current_snoc.
Qed.

Lemma pop_var_snoc fs f a var :
  pop_var var (mkState (fs ++ [f]) a) =
  match variables f !! name var with
  | Some v =>
      (Ok v, mkState (fs ++ [mkFrame (delete (name var) (variables f)) (functions f)]) a)
  | None =>
      (Raise (InterpreterException
         "tried to pop var which hasn't been added to the current stack frame"
         (var_span var)), mkState (fs ++ [f]) a)
  end.
Proof.
  unfold pop_var, bind. rewrite current_stack_frame_snoc.
  destruct (variables f !! name var); [|done].
  unfold update_current, set_frames, ret. simpl. by rewrite removelast_last.
Qed.

Lemma push_function_snoc fs f a fn :
  push_function fn (mkState (fs ++ [f]) a) =
  let key := (name (fn_name fn), length (fn_args fn)) in
  match functions f !! key with
  | Some _ =>
      (Raise (InterpreterException
         (already_defined (name (fn_name fn)) (length (fn_args fn))) (fn_span fn)),
       mkState (fs ++ [f]) a)
  | None => (Ok tt, mkState (fs ++ [mkFrame (variables f) (<[key := fn]> (functions f))]) a)
  end.
Proof.
  unfold push_function, bind. rewrite current_stack_frame_snoc. simpl.
  destruct (functions f !! _); [done|]. by rewrite update_current_snoc.
Qed.

Lemma pop_function_snoc fs f a fn :
  pop_function fn (mkState (fs ++ [f]) a) =
  let key := (name (fn_name fn), length (fn_args fn)) in
  match functions f !! key with
  | Some g => (Ok g, mkState (fs ++ [mkFrame (variables f) (delete key (functions f))]) a)
  | None =>
      (Raise (InterpreterException
         (not_pushed (name (fn_name fn)) (length (fn_args fn))) (fn_span fn)),
       mkState (fs ++ [f]) a)
  end.
Proof.
  unfold pop_function, bind. rewrite current_stack_frame_snoc. simpl.
  destruct (functions f !! _); [|done].
  unfold update_current, set_frames, ret. simpl. by rewrite removelast_last.
Qed.

Lemma push_stack_frame_eq fs a :
  push_stack_frame (mkState fs a) = (Ok tt, mkState (fs ++ [empty_frame]) a).
Proof. done. Qed.

Lemma pop_stack_frame_snoc fs f a :
  pop_stack_frame (mkState (fs ++ [f]) a) = (Ok f, mkState fs a).
Proof.
  unfold pop_stack_frame, set_frames. simpl.
  by rewrite last_snoc, removelast_last.
Qed.

(** Any operation that starts with [current_stack_frame] raises on an
    empty stack. *)
Lemma push_var_nil a var v :
  push_var var v (mkState [] a) = (Raise AssertionError, mkState [] a).
Proof. done. Qed.

Lemma push_function_nil a fn :
  push_function fn (mkState [] a) = (Raise AssertionError, mkState [] a).
Proof. done. Qed.

(** A successful [push_var] tells the shape of the stack. *)
Lemma push_var_Ok var v s s' :
  push_var var v s = (Ok tt, s') →
  ∃ fs f, stack_frames s = fs ++ [f] ∧ variables f !! name var = None ∧
    s' = mkState (fs ++ [mkFrame (<[name var := v]> (variables f)) (functions f)])
                 (fn_argv s).
Proof.
  destruct s as [fs a]. destruct (frames_snoc_or_nil fs) as [->|(fs' & f & ->)].
  - by rewrite push_var_nil.
  - rewrite push_var_snoc. destruct (variables f !! name var) eqn:E; [done|].
    intros [= <-]. eauto.
Qed.

Lemma push_function_Ok fn s s' :
  push_function fn s = (Ok tt, s') →
  ∃ fs f, stack_frames s = fs ++ [f] ∧
    functions f !! (name (fn_name fn), length (fn_args fn)) = None ∧
    s' = mkState (fs ++ [mkFrame (variables f)
           (<[(name (fn_name fn), length (fn_args fn)) := fn]> (functions f))])
           (fn_argv s).
Proof.
  destruct s as [fs a]. destruct (frames_snoc_or_nil fs) as [->|(fs' & f & ->)].
  - by rewrite push_function_nil.
  - rewrite push_function_snoc. simpl.
    destruct (functions f !! _) eqn:E; [done|]. intros [= <-]. eauto.
Qed.
End context.

(** C6. Binding a name that the current frame already binds is refused:
    after a successful [push_var] of [n], a second [push_var] of [n] raises
    the shadowing [InterpreterException]; after a successful
    [push_function] of [(name, arity)], a second [push_function] of the
    same pair raises the already-defined [InterpreterException]; in both
    cases the failed call leaves the state, hence the frame, as it was. *)
Theorem double_binding_is_refused (s s1 : State) (var var' : Var) (v v' : Obj)
    (fn fn' : Function) :
  (push_var var v s = (Ok tt, s1) →
   name var' = name var →
   push_var var' v' s1 = (Raise shadowing, s1)) ∧
  (push_function fn s = (Ok tt, s1) →
   name (fn_name fn') = name (fn_name fn) →
   length (fn_args fn') = length (fn_args fn) →
   push_function fn' s1 =
     (Raise (InterpreterException
        (already_defined (name (fn_name fn)) (length (fn_args fn))) (fn_span fn')), s1)).
Proof.
  split.
  - intros H Hn. apply push_var_Ok in H as (fs & f & _ & _ & ->).
    rewrite push_var_snoc. simpl. rewrite Hn. by rewrite lookup_insert_eq.
  - intros H Hn Hl. apply push_function_Ok in H as (fs & f & _ & _ & ->).
    rewrite push_function_snoc. simpl. rewrite Hn, Hl. by rewrite lookup_insert_eq.
Qed.

(** ** Name resolution: the downward walk *)

Section lookup.
Implicit Types (s : State) (fs : list Frame) (f : Frame)
  (a : gmap positive (list Obj)) (var : Var).

(** Offset [k - len - 1] fetches the frame of index [k - 1] when
    [1 <= k <= len], and answers [None] when [k = 0]. *)
Lemma get_stack_frame_fetch fs a (k : nat) f :
  fs !! k = Some f →
  get_stack_frame (Z.of_nat (S k) - Z.of_nat (length fs) - 1) (mkState fs a) =
    (Ok (Some f), mkState fs a).
Proof.
  intros Hk. pose proof (lookup_lt_Some _ _ _ Hk) as Hlt.
  unfold get_stack_frame, bind, py_assert.
  rewrite bool_decide_eq_true_2 by lia. simpl.
  rewrite decide_False by lia.
  unfold py_index. rewrite decide_False by lia.
  replace (Z.to_nat _) with k by lia. by rewrite Hk.
Qed.

Lemma get_stack_frame_past fs a :
  get_stack_frame (Z.of_nat 0 - Z.of_nat (length fs) - 1) (mkState fs a) =
    (Ok None, mkState fs a).
Proof.
  unfold get_stack_frame, bind, py_assert.
  rewrite bool_decide_eq_true_2 by lia. simpl.
  by rewrite decide_True by lia.
Qed.

Lemma get_var_loop_spec var fs a (k : nat) :
  ∀ (fuel : nat) f,
    (k ≤ length fs)%nat → (k < fuel)%nat →
    variables f !! name var = None →
    get_var_loop fuel var (Some f) (Z.of_nat k - Z.of_nat (length fs) - 1) (mkState fs a) =
      match first_binding (λ f, variables f !! name var) (reverse (take k fs)) with
      | Some v => (Ok v, mkState fs a)
      | None =>
          (Raise (InterpreterException (no_variable (name var)) (var_span var)),
           mkState fs a)
      end.
Proof.
  induction k as [|k IH]; intros fuel f Hk Hfuel Hf;
    (destruct fuel as [|fuel]; [lia|]); simpl; rewrite Hf; unfold bind.
  - rewrite (get_stack_frame_past fs a). by destruct fuel.
  - destruct (lookup_lt_is_Some_2 fs k) as [g Hg]; [lia|].
    rewrite (get_stack_frame_fetch fs a k g Hg).
    rewrite (take_S_r _ _ _ Hg), reverse_snoc. simpl.
    destruct (variables g !! name var) as [v|] eqn:Hv.
    + destruct fuel; simpl; by rewrite Hv.
    + replace (Z.of_nat (S k) - Z.of_nat (length fs) - 1 - 1)
        with (Z.of_nat k - Z.of_nat (length fs) - 1) by lia.
      apply IH; [lia|lia|done].
Qed.

Lemma get_function_loop_spec var argn fs a (k : nat) :
  ∀ (fuel : nat) f,
    (k ≤ length fs)%nat → (k < fuel)%nat →
    functions f !! (name var, argn) = None →
    get_function_loop fuel var argn (Some f)
        (Z.of_nat k - Z.of_nat (length fs) - 1) (mkState fs a) =
      match first_binding (λ f, functions f !! (name var, argn)) (reverse (take k fs)) with
      | Some fn => (Ok fn, mkState fs a)
      | None =>
          (Raise (InterpreterException (no_such_function (name var) argn) (var_span var)),
           mkState fs a)
      end.
Proof.
  induction k as [|k IH]; intros fuel f Hk Hfuel Hf;
    (destruct fuel as [|fuel]; [lia|]); simpl; rewrite Hf; unfold bind.
  - rewrite (get_stack_frame_past fs a). by destruct fuel.
  - destruct (lookup_lt_is_Some_2 fs k) as [g Hg]; [lia|].
    rewrite (get_stack_frame_fetch fs a k g Hg).
    rewrite (take_S_r _ _ _ Hg), reverse_snoc. simpl.
    destruct (functions g !! (name var, argn)) as [fn|] eqn:Hv.
    + destruct fuel; simpl; by rewrite Hv.
    + replace (Z.of_nat (S k) - Z.of_nat (length fs) - 1 - 1)
        with (Z.of_nat k - Z.of_nat (length fs) - 1) by lia.
      apply IH; [lia|lia|done].
Qed.

(** [get_var] answers the binding of the topmost frame that has one. *)
Lemma get_var_spec var s :
  stack_frames s ≠ [] →
  get_var var s =
    match first_binding (λ f, variables f !! name var) (reverse (stack_frames s)) with
    | Some v => (Ok v, s)
    | None => (Raise (InterpreterException (no_variable (name var)) (var_span var)), s)
    end.
Proof.
  destruct s as [fs a]. simpl. intros Hne.
  destruct (frames_snoc_or_nil fs) as [->|(fs' & f & ->)]; [done|].
  unfold get_var, bind. rewrite current_stack_frame_snoc.
  rewrite reverse_snoc. simpl stack_frames. simpl first_binding.
  destruct (variables f !! name var) as [v|] eqn:Hv.
  - simpl. by rewrite Hv.
  - pose proof (get_var_loop_spec var (fs' ++ [f]) a (length (fs' ++ [f]))
      (S (length (fs' ++ [f]))) f) as H.
    replace (Z.of_nat (length (fs' ++ [f])) - Z.of_nat (length (fs' ++ [f])) - 1)
      with (-1) in H by lia.
    rewrite H by (done || lia).
    rewrite firstn_all, reverse_snoc. simpl. by rewrite Hv.
Qed.

Lemma get_function_spec var argn s :
  stack_frames s ≠ [] →
  get_function var argn s =
    match first_binding (λ f, functions f !! (name var, argn))
            (reverse (stack_frames s)) with
    | Some fn => (Ok fn, s)
    | None =>
        (Raise (InterpreterException (no_such_function (name var) argn) (var_span var)), s)
    end.
Proof.
  destruct s as [fs a]. simpl. intros Hne.
  destruct (frames_snoc_or_nil fs) as [->|(fs' & f & ->)]; [done|].
  unfold get_function, bind. rewrite current_stack_frame_snoc.
  rewrite reverse_snoc. simpl stack_frames. simpl first_binding.
  destruct (functions f !! (name var, argn)) as [v|] eqn:Hv.
  - simpl. by rewrite Hv.
  - pose proof (get_function_loop_spec var argn (fs' ++ [f]) a (length (fs' ++ [f]))
      (S (length (fs' ++ [f]))) f) as H.
    replace (Z.of_nat (length (fs' ++ [f])) - Z.of_nat (length (fs' ++ [f])) - 1)
      with (-1) in H by lia.
    rewrite H by (done || lia).
    rewrite firstn_all, reverse_snoc. simpl. by rewrite Hv.
Qed.

Lemma first_binding_None {A} (look : Frame → option A) fs :
  first_binding look fs = None ↔ ∀ f, f ∈ fs → look f = None.
Proof.
  induction fs as [|g fs IH]; simpl.
  - split; [|done]. intros _ f Hf. by apply elem_of_nil in Hf.
  - destruct (look g) eqn:E.
    + split; [done|]. intros H. specialize (H g (list_elem_of_here _ _)). congruence.
    + rewrite IH. split.
      * intros H f [->|Hf]%elem_of_cons; auto.
      * intros H f Hf. apply H. by apply list_elem_of_further.
Qed.

(** Visiting the stack from the top, the binding found is the one of the
    highest frame that has one. *)
Lemma first_binding_topmost {A} (look : Frame → option A) fs (i : nat) fi v :
  fs !! i = Some fi → look fi = Some v →
  (∀ (j : nat) fj, (i < j)%nat → fs !! j = Some fj → look fj = None) →
  first_binding look (reverse fs) = Some v.
Proof.
  induction fs as [|g fs IH] using rev_ind; [done|].
  intros Hi Hv Habove. rewrite reverse_snoc. simpl.
  destruct (decide (i = length fs)) as [->|Hne].
  - rewrite list_lookup_middle in Hi by done. injection Hi as ->. by rewrite Hv.
  - pose proof (lookup_lt_Some _ _ _ Hi) as Hlt. rewrite length_app in Hlt. simpl in Hlt.
    rewrite (Habove (length fs) g); [|lia|by rewrite list_lookup_middle].
    apply IH; [|done|].
    + by rewrite lookup_app_l in Hi by lia.
    + intros j fj Hj Hfj. apply (Habove j fj Hj).
      rewrite lookup_app_l; [done|]. by eapply lookup_lt_Some.
Qed.
End lookup.

(** C5. Dynamic scoping.  On a non-empty frame stack [f0 .. fk], a name
    bound only in a frame [fi] below the current one ([i < k]) is found by
    [get_var] from the current frame, which returns [fi]'s binding; and
    [get_var] raises the no-variable [InterpreterException] exactly when no
    frame of the stack binds the name. *)
Theorem get_var_dynamic_scope (s : State) (var : Var) :
  stack_frames s ≠ [] →
  (∀ (i : nat) fi v,
     (i < length (stack_frames s) - 1)%nat →
     stack_frames s !! i = Some fi →
     variables fi !! name var = Some v →
     (∀ (j : nat) fj, j ≠ i → stack_frames s !! j = Some fj →
        variables fj !! name var = None) →
     get_var var s = (Ok v, s)) ∧
  (get_var var s =
     (Raise (InterpreterException (no_variable (name var)) (var_span var)), s) ↔
   ∀ f, f ∈ stack_frames s → variables f !! name var = None).
Proof.
  intros Hne. rewrite (get_var_spec var s Hne). split.
  - intros i fi v _ Hi Hv Hothers.
    rewrite (first_binding_topmost _ _ i fi v Hi Hv); [done|].
    intros j fj Hj. apply Hothers. lia.
  - destruct (first_binding _ _) as [v|] eqn:Hfb.
    + split; [done|]. intros Hall.
      assert (first_binding (λ f, variables f !! name var) (reverse (stack_frames s)) = None)
        as Hnone; [|congruence].
      apply first_binding_None. intros f Hf. apply Hall. by apply elem_of_reverse.
    + split; [|done]. intros _ f Hf.
      apply (proj1 (first_binding_None _ _) Hfb). by apply elem_of_reverse.
Qed.

Lemma get_var_dynamic_scope_witness :
  get_var (var_ "x") three_frames = (Ok (Value 7 E), three_frames).
Proof.
  assert (stack_frames three_frames ≠ []) as Hne by done.
  apply (proj1 (get_var_dynamic_scope three_frames (var_ "x") Hne) 0%nat base_x (Value 7 E)).
  - simpl. lia.
  - reflexivity.
  - reflexivity.
  - intros j fj Hj Hl. destruct j as [|[|[|j]]]; simpl in Hl; try done;
      injection Hl as <-; reflexivity.
Defined.

(** C7. A call whose name and number of argument expressions match no
    [(name, arity)] key of any frame raises the [InterpreterException]
    whose reason spells the name and the arity, with the span of the name;
    nothing is evaluated and the state is untouched.  When some frame has
    the key, [get_function] resolves it to the function of the topmost such
    frame. *)
Theorem undefined_function_call (fuel : nat) (fname : Var) (argv : list Expr)
    (span : Span) (s : State) :
  stack_frames s ≠ [] →
  ((∀ f, f ∈ stack_frames s → functions f !! (name fname, length argv) = None) →
   eval (S fuel) (FunctionCall fname argv span) s =
     (Raise (InterpreterException
        ("no such function '" +:+ name fname +:+ "' with " +:+
         pretty (length argv) +:+ " arguments") (var_span fname)), s)) ∧
  (∀ (i : nat) fi fn,
     stack_frames s !! i = Some fi →
     functions fi !! (name fname, length argv) = Some fn →
     (∀ (j : nat) fj, (i < j)%nat → stack_frames s !! j = Some fj →
        functions fj !! (name fname, length argv) = None) →
     get_function fname (length argv) s = (Ok fn, s)).
Proof.
  intros Hne. split.
  - intros Hall. simpl. unfold bind.
    rewrite (get_function_spec fname (length argv) s Hne).
    replace (first_binding _ _) with (@None Function); [done|].
    symmetry. apply first_binding_None. intros f Hf. apply Hall. by apply elem_of_reverse.
  - intros i fi fn Hi Hfn Habove.
    rewrite (get_function_spec fname (length argv) s Hne).
    by rewrite (first_binding_topmost _ _ i fi fn Hi Hfn Habove).
Qed.

Lemma undefined_function_call_witness :
  eval 1 call_g Context_init =
    (Raise (InterpreterException "no such function 'g' with 2 arguments" E), Context_init).
Proof.
  assert (stack_frames Context_init ≠ []) as Hne by done.
  apply (proj1 (undefined_function_call 0 (var_ "g") [ValueE 0 E; ValueE 0 E] E
                  Context_init Hne)).
  intros f Hf. apply list_elem_of_singleton in Hf. subst f. reflexivity.
Defined.

(** ** Binding and unbinding the parameters *)

Section params.
Implicit Types (args : list Var) (vs : list Obj) (m : gmap string Obj)
  (fs : list Frame) (f : Frame) (a : gmap positive (list Obj)) (k : string).

Lemma lookup_bind_params_notin args : ∀ vs m k,
  k ∉ name <$> args → bind_params args vs m !! k = m !! k.
Proof.
  unfold bind_params.
  induction args as [|x args IH]; intros [|v vs] m k Hk; simpl; try done.
  rewrite fmap_cons, not_elem_of_cons in Hk. destruct Hk as [Hx Hk].
  rewrite IH by done. by rewrite lookup_insert_ne.
Qed.

Lemma lookup_bind_params_in args : ∀ vs m k,
  length args = length vs → k ∈ name <$> args →
  is_Some (bind_params args vs m !! k).
Proof.
  induction args as [|x args IH]; intros [|v vs] m k Hlen Hk; simpl in *; try done.
  - by apply elem_of_nil in Hk.
  - destruct (decide (k ∈ name <$> args)) as [Hin|Hnotin].
    + apply (IH vs); [lia|done].
    + apply elem_of_cons in Hk as [->|Hk]; [|done].
      pose proof (lookup_bind_params_notin args vs (<[name x := v]> m) _ Hnotin) as E.
      unfold bind_params in *. simpl. rewrite E, lookup_insert_eq. eauto.
Qed.

Lemma lookup_unbind_params_notin args : ∀ m k,
  k ∉ name <$> args → unbind_params args m !! k = m !! k.
Proof.
  unfold unbind_params.
  induction args as [|x args IH]; intros m k Hk; simpl; [done|].
  rewrite fmap_cons, not_elem_of_cons in Hk. destruct Hk as [Hx Hk].
  rewrite IH by done. by rewrite lookup_delete_ne.
Qed.

Lemma lookup_unbind_params_in args : ∀ m k,
  k ∈ name <$> args → unbind_params args m !! k = None.
Proof.
  induction args as [|x args IH]; intros m k Hk; simpl in *.
  - by apply elem_of_nil in Hk.
  - destruct (decide (k ∈ name <$> args)) as [Hin|Hnotin].
    + by apply IH.
    + apply elem_of_cons in Hk as [->|Hk]; [|done].
      pose proof (lookup_unbind_params_notin args (delete (name x) m) _ Hnotin) as E.
      unfold unbind_params in *. simpl. by rewrite E, lookup_delete_eq.
Qed.

(** Unbinding the parameters undoes their binding when none of them was
    bound before. *)
Lemma unbind_bind_params args vs m :
  length args = length vs →
  (∀ x, x ∈ args → m !! name x = None) →
  unbind_params args (bind_params args vs m) = m.
Proof.
  intros Hlen Hfresh. apply map_eq. intros k.
  destruct (decide (k ∈ name <$> args)) as [Hin|Hnotin].
  - rewrite lookup_unbind_params_in by done.
    apply list_elem_of_fmap in Hin as (x & -> & Hx). symmetry. by apply Hfresh.
  - rewrite lookup_unbind_params_notin by done.
    by rewrite lookup_bind_params_notin.
Qed.

Lemma frame_eta f : mkFrame (variables f) (functions f) = f.
Proof. by destruct f. Qed.

(** What a successful [push_args] loop did and what it tells about the
    parameters. *)
Lemma push_args_loop_Ok args : ∀ vs fs f a s',
  length args = length vs →
  push_args_loop args vs (mkState (fs ++ [f]) a) = (Ok tt, s') →
  s' = mkState (fs ++ [mkFrame (bind_params args vs (variables f)) (functions f)]) a ∧
  NoDup (name <$> args) ∧
  (∀ x, x ∈ args → variables f !! name x = None).
Proof.
  induction args as [|x args IH]; intros [|v vs] fs f a s' Hlen; simpl in *; try done.
  - unfold ret. intros [= <-]. change (bind_params [] [] (variables f)) with (variables f).
    rewrite frame_eta. split_and!; [done|constructor|].
    intros x Hx. by apply elem_of_nil in Hx.
  - unfold bind. rewrite push_var_snoc.
    destruct (variables f !! name x) eqn:Hx; [done|].
    intros H. apply IH in H as (-> & Hnd & Hfresh); [|lia]. simpl in *.
    split_and!.
    + done.
    + constructor; [|done]. intros (y & Hxy & Hy)%list_elem_of_fmap.
      specialize (Hfresh y Hy). rewrite <- Hxy in Hfresh.
      by rewrite lookup_insert_eq in Hfresh.
    + intros y [->|Hy]%elem_of_cons; [done|].
      specialize (Hfresh y Hy).
      apply lookup_insert_None in Hfresh. tauto.
Qed.

Lemma push_args_loop_fresh args : ∀ vs fs f a,
  length args = length vs →
  NoDup (name <$> args) →
  (∀ x, x ∈ args → variables f !! name x = None) →
  push_args_loop args vs (mkState (fs ++ [f]) a) =
    (Ok tt, mkState (fs ++ [mkFrame (bind_params args vs (variables f)) (functions f)]) a).
Proof.
  induction args as [|x args IH]; intros [|v vs] fs f a Hlen Hnd Hfresh;
    simpl in *; try done.
  - change (bind_params [] [] (variables f)) with (variables f). by rewrite frame_eta.
  - unfold bind. rewrite push_var_snoc.
    rewrite (Hfresh x) by apply list_elem_of_here.
    apply NoDup_cons in Hnd as [Hx Hnd].
    rewrite IH; [done|lia|done|]. simpl.
    intros y Hy. rewrite lookup_insert_ne.
    + apply Hfresh. by apply list_elem_of_further.
    + intros Heq. apply Hx. apply list_elem_of_fmap. eauto.
Qed.

Lemma pop_args_bound args : ∀ fs f a,
  NoDup (name <$> args) →
  (∀ x, x ∈ args → is_Some (variables f !! name x)) →
  ∃ vs, pop_args args (mkState (fs ++ [f]) a) =
    (Ok vs, mkState (fs ++ [mkFrame (unbind_params args (variables f)) (functions f)]) a).
Proof.
  induction args as [|x args IH]; intros fs f a Hnd Hbound; simpl in *.
  - exists []. change (unbind_params [] (variables f)) with (variables f).
    by rewrite frame_eta.
  - unfold bind. rewrite pop_var_snoc.
    destruct (Hbound x (list_elem_of_here _ _)) as [v Hv]. rewrite Hv.
    apply NoDup_cons in Hnd as [Hx Hnd].
    edestruct (IH fs (mkFrame (delete (name x) (variables f)) (functions f)) a Hnd)
      as [vs Hvs].
    + intros y Hy. simpl. rewrite lookup_delete_ne.
      * apply Hbound. by apply list_elem_of_further.
      * intros Heq. apply Hx. apply list_elem_of_fmap. eauto.
    + rewrite Hvs. simpl. eauto.
Qed.

(** [push_args] then [pop_args] on the same parameters restores the
    frame. *)
Lemma pop_args_after_push args vs fs f a :
  length args = length vs →
  NoDup (name <$> args) →
  (∀ x, x ∈ args → variables f !! name x = None) →
  ∃ vs', pop_args args
      (mkState (fs ++ [mkFrame (bind_params args vs (variables f)) (functions f)]) a) =
    (Ok vs', mkState (fs ++ [f]) a).
Proof.
  intros Hlen Hnd Hfresh.
  edestruct (pop_args_bound args fs
    (mkFrame (bind_params args vs (variables f)) (functions f)) a Hnd) as [vs' Hvs'].
  - intros x Hx. simpl. apply lookup_bind_params_in; [done|].
    apply list_elem_of_fmap. eauto.
  - exists vs'. rewrite Hvs'. simpl.
    by rewrite unbind_bind_params, frame_eta.
Qed.

(** A parameter that the current frame already binds makes the loop
    raise: at that parameter, or earlier at a repeated one. *)
Lemma push_args_loop_bound args : ∀ vs fs f a x,
  length args = length vs →
  x ∈ args → is_Some (variables f !! name x) →
  ∃ s', push_args_loop args vs (mkState (fs ++ [f]) a) = (Raise shadowing, s').
Proof.
  induction args as [|y args IH]; intros [|v vs] fs f a x Hlen Hx Hb; simpl in *; try done.
  - by apply elem_of_nil in Hx.
  - unfold bind. rewrite push_var_snoc.
    destruct (variables f !! name y) eqn:Hy; [eauto|].
    apply elem_of_cons in Hx as [->|Hx].
    + rewrite Hy in Hb. by destruct Hb.
    + eapply (IH vs); [lia|done|]. simpl.
      destruct (decide (name y = name x)) as [->|Hne].
      * rewrite lookup_insert_eq. eauto.
      * by rewrite lookup_insert_ne.
Qed.
End params.

(** ** Successful evaluation restores the frame stack *)

Section frames_kept.
Implicit Types (s : State) (fs : list Frame) (f : Frame)
  (a : gmap positive (list Obj)) (var : Var) (fn : Function).

Lemma frames_kept_ret {A} (x : A) : frames_kept (ret x).
Proof. intros s r s'. unfold ret. by intros [= _ <-]. Qed.

Lemma frames_kept_raise {A} e : frames_kept (@raise A e).
Proof. by intros s r s'. Qed.

Lemma frames_kept_bind {A B} (m : M A) (k : A → M B) :
  frames_kept m → (∀ x, frames_kept (k x)) → frames_kept (bind m k).
Proof.
  intros Hm Hk s r s'. unfold bind.
  destruct (m s) as [[x|e|] s1] eqn:E; try done.
  intros H. apply Hk in H. apply Hm in E. congruence.
Qed.

Lemma get_var_state var s o s' : get_var var s = (o, s') → s' = s.
Proof.
  destruct (frames_snoc_or_nil (stack_frames s)) as [Hnil|(fs & f & Hs)].
  - unfold get_var, bind, current_stack_frame. rewrite Hnil. simpl. congruence.
  - rewrite get_var_spec by (rewrite Hs; by destruct fs).
    destruct (first_binding _ _); congruence.
Qed.

Lemma get_function_state var argn s o s' : get_function var argn s = (o, s') → s' = s.
Proof.
  destruct (frames_snoc_or_nil (stack_frames s)) as [Hnil|(fs & f & Hs)].
  - unfold get_function, bind, current_stack_frame. rewrite Hnil. simpl. congruence.
  - rewrite get_function_spec by (rewrite Hs; by destruct fs).
    destruct (first_binding _ _); congruence.
Qed.

Lemma frames_kept_get_var var : frames_kept (get_var var).
Proof. intros s r s' H. apply get_var_state in H. by subst. Qed.

Lemma frames_kept_get_function var argn : frames_kept (get_function var argn).
Proof. intros s r s' H. apply get_function_state in H. by subst. Qed.

Lemma frames_kept_py_add l r : frames_kept (py_add l r).
Proof. destruct l, r; simpl; auto using @frames_kept_ret, @frames_kept_raise. Qed.

Lemma frames_kept_py_compare op l r : frames_kept (py_compare op l r).
Proof. destruct l, r; simpl; auto using @frames_kept_ret, @frames_kept_raise. Qed.

Lemma frames_kept_get_value o : frames_kept (get_value o).
Proof. destruct o; simpl; auto using @frames_kept_ret, @frames_kept_raise. Qed.

Lemma frames_kept_set_args fn vs : frames_kept (set_args fn vs).
Proof.
  intros s r s'. unfold set_args. destruct (decide _); [done|]. by intros [= _ <-].
Qed.

(** [let]: the binding is pushed, the body keeps the frames, the binding
    is popped. *)
Lemma frames_kept_let var v (body : M Obj) :
  frames_kept body →
  frames_kept (push_var var v ;;; body_value <- body ;; pop_var var ;;; ret body_value).
Proof.
  intros Hb s r s'. unfold bind at 1.
  destruct (push_var var v s) as [[[]|e|] s1] eqn:Hp; try done.
  apply push_var_Ok in Hp as (fs & f & Hs & Hfresh & ->).
  unfold bind at 1. destruct (body _) as [[r'|e|] [fs2 a2]] eqn:Hbody; try done.
  apply Hb in Hbody. simpl in Hbody. subst fs2.
  unfold bind. rewrite pop_var_snoc. simpl. rewrite lookup_insert_eq.
  unfold ret. intros [= _ <-]. simpl.
  by rewrite Hs, delete_insert_eq, delete_id, frame_eta.
Qed.

Lemma frames_kept_lambda fn (body : M Obj) :
  frames_kept body →
  frames_kept (push_function fn ;;; result <- body ;; pop_function fn ;;; ret result).
Proof.
  intros Hb s r s'. unfold bind at 1.
  destruct (push_function fn s) as [[[]|e|] s1] eqn:Hp; try done.
  apply push_function_Ok in Hp as (fs & f & Hs & Hfresh & ->).
  unfold bind at 1. destruct (body _) as [[r'|e|] [fs2 a2]] eqn:Hbody; try done.
  apply Hb in Hbody. simpl in Hbody. subst fs2.
  unfold bind. rewrite pop_function_snoc. simpl. rewrite lookup_insert_eq.
  unfold ret. intros [= _ <-]. simpl.
  by rewrite Hs, delete_insert_eq, delete_id, frame_eta.
Qed.

(** The parameters pushed by a successful [push_args] loop are all
    popped again by [pop_args], whatever happened to the [argv]
    attributes in between. *)
Lemma push_pop_args_kept (args : list Var) (vs : list Obj) s s1 :
  length args = length vs →
  push_args_loop args vs s = (Ok tt, s1) →
  ∀ a2, ∃ vs', pop_args args (mkState (stack_frames s1) a2) =
                 (Ok vs', mkState (stack_frames s) a2).
Proof.
  intros Hlen Hpush a2. destruct s as [fs a].
  destruct (frames_snoc_or_nil fs) as [->|(fs' & f & ->)].
  - destruct args as [|x args], vs as [|v vs]; simpl in *; try done.
    injection Hpush as <-. by exists [].
  - apply push_args_loop_Ok in Hpush as (-> & Hnd & Hfresh); [|done].
    simpl. by apply pop_args_after_push.
Qed.

Lemma frames_kept_Function_eval (ev : Expr → M Obj) fn :
  frames_kept (ev (fn_body fn)) → frames_kept (Function_eval ev fn).
Proof.
  intros Hev s r s'. unfold Function_eval.
  destruct (fn_argv s !! fn_id fn) as [argv|]; [|done].
  unfold Function_eval_armed, push_args, py_assert.
  destruct (bool_decide (length (fn_args fn) = length argv)) eqn:Hlen;
    [apply bool_decide_eq_true in Hlen|by destruct (is_lambda fn)].
  destruct (is_lambda fn).
  - unfold bind, ret. simpl.
    destruct (push_args_loop _ _ s) as [[[]|e|] s1] eqn:Hpush; try done.
    destruct (ev _ s1) as [[r'|e|] s2] eqn:Hbody; try done.
    apply Hev in Hbody.
    destruct (push_pop_args_kept _ _ _ _ Hlen Hpush (delete (fn_id fn) (fn_argv s2)))
      as [vs' Hpop].
    unfold set_argv. rewrite Hbody, Hpop. by intros [= _ <-].
  - unfold bind, ret, push_stack_frame. simpl.
    destruct (push_args_loop _ _ _) as [[[]|e|] s1] eqn:Hpush; try done.
    destruct (ev _ s1) as [[r'|e|] s2] eqn:Hbody; try done.
    apply Hev in Hbody.
    destruct (push_pop_args_kept _ _ _ _ Hlen Hpush (delete (fn_id fn) (fn_argv s2)))
      as [vs' Hpop].
    unfold set_argv. rewrite Hbody, Hpop. simpl.
    rewrite pop_stack_frame_snoc. by intros [= _ <-].
Qed.

Lemma frames_kept_call (ev : Expr → M Obj) fn vs :
  frames_kept (ev (fn_body fn)) → frames_kept (call ev fn vs).
Proof.
  intros Hev. apply frames_kept_bind; [apply frames_kept_set_args|].
  intros _. by apply frames_kept_Function_eval.
Qed.

Lemma frames_kept_map_eval (ev : Expr → M Obj) es :
  (∀ e, frames_kept (ev e)) → frames_kept (map_eval ev es).
Proof.
  intros Hev. induction es as [|e es IH]; simpl.
  - apply frames_kept_ret.
  - apply frames_kept_bind; [done|]. intros v.
    apply frames_kept_bind; [done|]. intros vs. apply frames_kept_ret.
Qed.

Lemma frames_kept_eval fuel : ∀ e, frames_kept (eval fuel e).
Proof.
  induction fuel as [|n IH]; intros e; [done|].
  destruct e; simpl.
  - apply frames_kept_raise.
  - apply frames_kept_ret.
  - apply frames_kept_get_var.
  - apply frames_kept_bind; [done|]. intros l.
    apply frames_kept_bind; [done|]. intros r.
    apply frames_kept_bind; [apply frames_kept_py_add|]. intros [x|z].
    + apply frames_kept_ret.
    + apply frames_kept_raise.
  - apply frames_kept_bind; [done|]. intros o.
    apply frames_kept_bind; [apply frames_kept_get_value|]. intros v.
    apply frames_kept_ret.
  - apply frames_kept_bind; [done|]. intros l.
    apply frames_kept_bind; [done|]. intros r. apply frames_kept_py_compare.
  - by apply frames_kept_lambda.
  - apply frames_kept_bind; [done|]. intros v. by apply frames_kept_let.
  - apply frames_kept_bind; [apply frames_kept_get_function|]. intros fn.
    apply frames_kept_bind; [by apply frames_kept_map_eval|]. intros vs.
    by apply frames_kept_call.
  - apply frames_kept_bind; [done|]. intros c. by destruct (truthy c).
Qed.
End frames_kept.

(** C4. A call that completes without error leaves no trace in the
    context: whether the function is a lambda or not, and whether it is
    entered through [Function.eval] or through a [FunctionCall] node, the
    number of frames and the variables of the current frame are the same
    after the call as before it. *)
Theorem call_leaves_no_trace (fuel : nat) (s s' : State) (r : Obj) :
  (∀ fn, Function_eval (eval fuel) fn s = (Ok r, s') →
     length (stack_frames s') = length (stack_frames s) ∧
     variables <$> top_frame s' = variables <$> top_frame s) ∧
  (∀ fname argv span, eval fuel (FunctionCall fname argv span) s = (Ok r, s') →
     length (stack_frames s') = length (stack_frames s) ∧
     variables <$> top_frame s' = variables <$> top_frame s).
Proof.
  split.
  - intros fn H. apply frames_kept_Function_eval in H; [|apply frames_kept_eval].
    unfold top_frame. by rewrite H.
  - intros fname argv span H. apply frames_kept_eval in H.
    unfold top_frame. by rewrite H.
Qed.

Lemma call_leaves_no_trace_witness :
  length (stack_frames sum_registered) = 1%nat ∧
  variables <$> top_frame sum_registered = Some ∅.
Proof.
  assert (eval 3 call_sum sum_registered = (Ok (Value 9 E), sum_registered)) as H
    by (vm_compute; reflexivity).
  destruct (proj2 (call_leaves_no_trace 3 sum_registered sum_registered (Value 9 E))
              (var_ "sum") [ValueE 4 E; ValueE 5 E] E H) as [H1 H2].
  split; [exact H1 | exact H2].
Defined.

(** ** Evaluation does not depend on the armed arguments *)

Section argv_blind.
Implicit Types (s : State) (fs : list Frame) (f : Frame)
  (a : gmap positive (list Obj)) (var : Var) (fn : Function).

Lemma argv_blind_ret {A} (x : A) : argv_blind (ret x).
Proof. done. Qed.

Lemma argv_blind_raise {A} e : argv_blind (@raise A e).
Proof. done. Qed.

Lemma argv_blind_bind {A B} (m : M A) (k : A → M B) :
  argv_blind m → (∀ x, argv_blind (k x)) → argv_blind (bind m k).
Proof.
  intros Hm Hk fs a1 a2. unfold bind. destruct (Hm fs a1 a2) as [H1 H2].
  destruct (m (mkState fs a1)) as [o1 [fs1 b1]], (m (mkState fs a2)) as [o2 [fs2 b2]].
  simpl in *. subst. destruct o2; [apply Hk|done|done].
Qed.

Ltac frame_op lem :=
  let fs := fresh "fs" in
  intros fs ? ?; destruct (frames_snoc_or_nil fs) as [->|(? & ? & ->)];
  [done | rewrite !lem; simpl; repeat case_match; done].

Lemma argv_blind_push_var var v : argv_blind (push_var var v).
Proof. frame_op push_var_snoc. Qed.

Lemma argv_blind_pop_var var : argv_blind (pop_var var).
Proof. frame_op pop_var_snoc. Qed.

Lemma argv_blind_push_function fn : argv_blind (push_function fn).
Proof. frame_op push_function_snoc. Qed.

Lemma argv_blind_pop_function fn : argv_blind (pop_function fn).
Proof. frame_op pop_function_snoc. Qed.

Lemma argv_blind_push_stack_frame : argv_blind push_stack_frame.
Proof. done. Qed.

Lemma argv_blind_pop_stack_frame : argv_blind pop_stack_frame.
Proof. frame_op pop_stack_frame_snoc. Qed.

Lemma argv_blind_get_var var : argv_blind (get_var var).
Proof.
  intros fs a1 a2. destruct (frames_snoc_or_nil fs) as [->|(fs' & f & ->)]; [done|].
  rewrite !get_var_spec by (simpl; by destruct fs'). simpl.
  by destruct (first_binding _ _).
Qed.

Lemma argv_blind_get_function var argn : argv_blind (get_function var argn).
Proof.
  intros fs a1 a2. destruct (frames_snoc_or_nil fs) as [->|(fs' & f & ->)]; [done|].
  rewrite !get_function_spec by (simpl; by destruct fs'). simpl.
  by destruct (first_binding _ _).
Qed.

Lemma argv_blind_clear_args fn : argv_blind (clear_args fn).
Proof. done. Qed.

Lemma argv_blind_py_add l r : argv_blind (py_add l r).
Proof. by destruct l, r. Qed.

Lemma argv_blind_py_compare op l r : argv_blind (py_compare op l r).
Proof. by destruct l, r. Qed.

Lemma argv_blind_get_value o : argv_blind (get_value o).
Proof. by destruct o. Qed.

Lemma argv_blind_push_args (args : list Var) (vs : list Obj) :
  argv_blind (push_args args vs).
Proof.
  apply argv_blind_bind; [unfold py_assert; by destruct (bool_decide _)|]. intros _.
  revert vs. induction args as [|x args IH]; intros [|v vs]; simpl; try done.
  apply argv_blind_bind; [apply argv_blind_push_var|]. intros _. apply IH.
Qed.

Lemma argv_blind_pop_args (args : list Var) : argv_blind (pop_args args).
Proof.
  induction args as [|x args IH]; simpl; [done|].
  apply argv_blind_bind; [apply argv_blind_pop_var|]. intros v.
  apply argv_blind_bind; [done|]. intros vs. apply argv_blind_ret.
Qed.

Lemma argv_blind_armed (ev : Expr → M Obj) fn argv :
  argv_blind (ev (fn_body fn)) → argv_blind (Function_eval_armed ev fn argv).
Proof.
  intros Hev. unfold Function_eval_armed.
  apply argv_blind_bind; [by destruct (is_lambda fn)|]. intros _.
  apply argv_blind_bind; [apply argv_blind_push_args|]. intros _.
  apply argv_blind_bind; [done|]. intros r.
  apply argv_blind_bind; [apply argv_blind_clear_args|]. intros _.
  apply argv_blind_bind; [apply argv_blind_pop_args|]. intros _.
  apply argv_blind_bind; [|intros _; apply argv_blind_ret].
  destruct (is_lambda fn); [done|].
  apply argv_blind_bind; [apply argv_blind_pop_stack_frame|]. by intros _.
Qed.

(** Arming overwrites whatever the attribute held, and [Function.eval]
    reads it back at once: the call sees the arguments of its own call
    site. *)
Lemma call_armed (ev : Expr → M Obj) fn vs fs a :
  length vs = length (fn_args fn) →
  call ev fn vs (mkState fs a) =
    Function_eval_armed ev fn vs (mkState fs (<[fn_id fn := vs]> a)).
Proof.
  intros Hlen. unfold call, bind, set_args.
  rewrite decide_False by (by intros ?). simpl.
  unfold Function_eval. simpl. by rewrite lookup_insert_eq.
Qed.

Lemma argv_blind_call (ev : Expr → M Obj) fn vs :
  argv_blind (ev (fn_body fn)) → argv_blind (call ev fn vs).
Proof.
  intros Hev fs a1 a2.
  destruct (decide (length vs = length (fn_args fn))) as [Hlen|Hlen].
  - rewrite !call_armed by done. by apply argv_blind_armed.
  - unfold call, bind, set_args. by rewrite decide_True.
Qed.

Lemma argv_blind_map_eval (ev : Expr → M Obj) es :
  (∀ e, argv_blind (ev e)) → argv_blind (map_eval ev es).
Proof.
  intros Hev. induction es as [|e es IH]; simpl; [done|].
  apply argv_blind_bind; [done|]. intros v.
  apply argv_blind_bind; [done|]. intros vs. apply argv_blind_ret.
Qed.

Lemma argv_blind_eval fuel : ∀ e, argv_blind (eval fuel e).
Proof.
  induction fuel as [|n IH]; intros e; [done|].
  destruct e; simpl.
  - apply argv_blind_raise.
  - apply argv_blind_ret.
  - apply argv_blind_get_var.
  - apply argv_blind_bind; [done|]. intros l.
    apply argv_blind_bind; [done|]. intros r.
    apply argv_blind_bind; [apply argv_blind_py_add|]. by intros [x|z].
  - apply argv_blind_bind; [done|]. intros o.
    apply argv_blind_bind; [apply argv_blind_get_value|]. by intros v.
  - apply argv_blind_bind; [done|]. intros l.
    apply argv_blind_bind; [done|]. intros r. apply argv_blind_py_compare.
  - apply argv_blind_bind; [apply argv_blind_push_function|]. intros _.
    apply argv_blind_bind; [done|]. intros r.
    apply argv_blind_bind; [apply argv_blind_pop_function|]. by intros _.
  - apply argv_blind_bind; [done|]. intros v.
    apply argv_blind_bind; [apply argv_blind_push_var|]. intros _.
    apply argv_blind_bind; [done|]. intros r.
    apply argv_blind_bind; [apply argv_blind_pop_var|]. by intros _.
  - apply argv_blind_bind; [apply argv_blind_get_function|]. intros fn.
    apply argv_blind_bind; [by apply argv_blind_map_eval|]. intros vs.
    by apply (argv_blind_call (eval n)).
  - apply argv_blind_bind; [done|]. intros c. by destruct (truthy c).
Qed.
End argv_blind.

(** ** Calls of ordinary functions *)

(** A call of a non-lambda function runs the body on top of a fresh frame
    holding exactly the parameters bound to the arguments of this call; a
    successful body is followed by the unbinding of the parameters, the
    removal of the frame and the disarming of the function. *)
Lemma call_non_lambda (fuel : nat) (fn : Function) (vs : list Obj)
    (fs : list Frame) (a : gmap positive (list Obj)) :
  is_lambda fn = false →
  length vs = length (fn_args fn) →
  NoDup (name <$> fn_args fn) →
  call (eval fuel) fn vs (mkState fs a) =
    match eval fuel (fn_body fn)
            (mkState (fs ++ [call_frame (fn_args fn) vs]) (<[fn_id fn := vs]> a)) with
    | (Ok r, s2) => (Ok r, mkState fs (delete (fn_id fn) (fn_argv s2)))
    | other => other
    end.
Proof.
  intros Hlam Hlen Hnd. rewrite call_armed by done.
  unfold Function_eval_armed. rewrite Hlam.
  unfold bind at 1. rewrite push_stack_frame_eq.
  unfold bind at 1. unfold push_args at 1, bind at 1, py_assert.
  rewrite bool_decide_eq_true_2 by done. simpl ret.
  unfold ret at 1. cbv beta iota.
  rewrite (push_args_loop_fresh (fn_args fn) vs fs empty_frame); [|done|done|done].
  change (mkFrame (bind_params (fn_args fn) vs (variables empty_frame))
            (functions empty_frame)) with (call_frame (fn_args fn) vs).
  unfold bind at 1.
  destruct (eval fuel (fn_body fn) _) as [[r|e|] s2] eqn:Hbody; [|done|done].
  apply frames_kept_eval in Hbody. simpl in Hbody.
  unfold bind at 1. unfold clear_args at 1, set_argv. rewrite Hbody.
  unfold bind at 1.
  destruct (pop_args_after_push (fn_args fn) vs fs empty_frame
              (delete (fn_id fn) (fn_argv s2))) as [vs' Hpop]; [done|done|done|].
  change (mkFrame (bind_params (fn_args fn) vs (variables empty_frame))
            (functions empty_frame)) with (call_frame (fn_args fn) vs) in Hpop.
  rewrite Hpop. unfold bind. by rewrite pop_stack_frame_snoc.
Qed.

Lemma map_eval_length (ev : Expr → M Obj) (es : list Expr) : ∀ s vs s',
  map_eval ev es s = (Ok vs, s') → length vs = length es.
Proof.
  induction es as [|e es IH]; intros s vs s'; simpl.
  - unfold ret. by intros [= <- _].
  - unfold bind. destruct (ev e s) as [[v|?|] s1]; try done.
    destruct (map_eval ev es s1) as [[vs1|?|] s2] eqn:E; try done.
    unfold ret. intros [= <- _]. simpl. f_equal. by eapply IH.
Qed.

(** C1 (as the code has it).  Recursion through one shared Function
    object returns the right results, although the shared [argv] attribute
    does not keep the arguments of the outer levels.  Take a
    call node that resolves to a non-lambda function [fn] with distinct
    parameter names, in any state [s] -- in particular one reached inside
    an outer call of the same [fn], whatever its [argv] attribute holds.
    Once the argument expressions have evaluated to [vs], the outcome of
    the call is the outcome of the body of [fn] evaluated on top of a fresh
    frame that binds the parameters to [vs], the arguments of this level;
    it is the same for every content [pending] of the [argv] attributes.
    When the call returns, the frame stack -- which holds the parameter
    bindings of every outer level -- is exactly what it was before, so
    every variable reads as it did before the call; the [argv] attribute
    of [fn], which the call armed and disarmed, is left empty, whatever
    an outer level had put there. *)
Theorem recursion_uses_own_arguments (fuel : nat) (fname : Var) (argv : list Expr)
    (span : Span) (s s1 : State) (fn : Function) (vs : list Obj)
    (pending : gmap positive (list Obj)) :
  get_function fname (length argv) s = (Ok fn, s) →
  is_lambda fn = false →
  length (fn_args fn) = length argv →
  NoDup (name <$> fn_args fn) →
  map_eval (eval fuel) argv s = (Ok vs, s1) →
  (eval (S fuel) (FunctionCall fname argv span) s).1 =
    (eval fuel (fn_body fn)
       (mkState (stack_frames s ++ [call_frame (fn_args fn) vs]) pending)).1 ∧
  (∀ r s', eval (S fuel) (FunctionCall fname argv span) s = (Ok r, s') →
     stack_frames s' = stack_frames s ∧
     (∀ var, (get_var var s').1 = (get_var var s).1) ∧
     fn_argv s' !! fn_id fn = None).
Proof.
  intros Hget Hlam Harity Hnd Hargs.
  assert (eval (S fuel) (FunctionCall fname argv span) s =
            match eval fuel (fn_body fn)
                    (mkState (stack_frames s ++ [call_frame (fn_args fn) vs])
                             (<[fn_id fn := vs]> (fn_argv s1))) with
            | (Ok r, s2) => (Ok r, mkState (stack_frames s) (delete (fn_id fn) (fn_argv s2)))
            | other => other
            end) as Hcall.
  { change (eval (S fuel) (FunctionCall fname argv span))
      with (fn <- get_function fname (length argv) ;;
            vs <- map_eval (eval fuel) argv ;; call (eval fuel) fn vs).
    rewrite (bind_Ok _ _ _ _ _ Hget), (bind_Ok _ _ _ _ _ Hargs).
    pose proof (map_eval_length _ _ _ _ _ Hargs) as Hlen.
    apply frames_kept_map_eval in Hargs; [|apply frames_kept_eval].
    rewrite (state_eta s1), Hargs. simpl fn_argv.
    apply call_non_lambda; (done || congruence). }
  rewrite Hcall. split.
  - destruct (argv_blind_eval fuel (fn_body fn)
      (stack_frames s ++ [call_frame (fn_args fn) vs])
      (<[fn_id fn := vs]> (fn_argv s1)) pending) as [Hout _].
    rewrite <- Hout. by destruct (eval fuel (fn_body fn) _) as [[r|e|] s2].
  - intros r s'. destruct (eval fuel (fn_body fn) _) as [[r2|e|] s2]; try done.
    intros [= _ <-]. simpl. split_and!.
    + done.
    + intros var. rewrite (state_eta s) at 2. apply argv_blind_get_var.
    + apply lookup_delete_eq.
Qed.

Lemma recursion_uses_own_arguments_witness :
  (eval 12 inner_call inside_outer_call).1 = Ok (Value 6 E).
Proof.
  assert (get_function (var_ "f") 1 inside_outer_call = (Ok rec_fn, inside_outer_call))
    as Hget by (vm_compute; reflexivity).
  assert (map_eval (eval 11) [AdditiveExpr (VarE (var_ "n")) ADDITION (ValueE 1 E) E]
            inside_outer_call = (Ok [Value 1 E], inside_outer_call))
    as Hargs by (vm_compute; reflexivity).
  assert (NoDup (name <$> fn_args rec_fn)) as Hnd by apply NoDup_singleton.
  destruct (recursion_uses_own_arguments 11 (var_ "f")
              [AdditiveExpr (VarE (var_ "n")) ADDITION (ValueE 1 E) E] E
              inside_outer_call inside_outer_call rec_fn [Value 1 E] ∅
              Hget eq_refl eq_refl Hnd Hargs) as [Hout _].
  etransitivity; [exact Hout|]. vm_compute. reflexivity.
Defined.

(** C1, as stated, fails on its second half: inside the outer call
    [f(0.0)] the [argv] attribute of [f] holds the outer arguments; the
    recursive call [f(n + 1)] returns its own result, [6.0], and the outer
    level still reads its own [n], but the attribute has been overwritten
    and cleared: the outer pending arguments are gone from the shared
    slot. *)
Lemma inner_call_clears_pending_arguments :
  fn_argv inside_outer_call !! fn_id rec_fn = Some [Value 0 E] ∧
  (eval 12 inner_call inside_outer_call).1 = Ok (Value 6 E) ∧
  get_var (var_ "n") (eval 12 inner_call inside_outer_call).2 =
    (Ok (Value 0 E), (eval 12 inner_call inside_outer_call).2) ∧
  fn_argv (eval 12 inner_call inside_outer_call).2 !! fn_id rec_fn = None.
Proof. vm_compute. repeat split. Qed.

(** The whole recursion, from the registration of [f] on: [f(0.0)] is
    [((3 + 2) + 1) + 0]. *)
Example recursion_runs :
  eval 14 (FunctionCall (var_ "f") [ValueE 0 E] E) rec_registered =
    (Ok (Value 6 E), rec_registered).
Proof. vm_compute. reflexivity. Qed.

(** ** Let-bindings *)

(** C2 (as the code has it).  Once the value has been evaluated and the
    name bound: if the body completes normally, [LetExpr.eval] unbinds the
    name from the current frame -- the frame stack is back to what it was
    before the binding, where the name is unbound -- and returns the result
    of the body; if the body raises, the exception propagates from
    [LetExpr.eval] with the state exactly as the body left it, no unbinding
    being performed on that path. *)
Theorem LetExpr_unbinds_on_normal_exit (fuel : nat) (lname : Var) (value body : Expr)
    (span : Span) (s s1 s2 : State) (v : Obj) :
  eval fuel value s = (Ok v, s1) →
  push_var lname v s1 = (Ok tt, s2) →
  (∀ r s3, eval fuel body s2 = (Ok r, s3) →
     ∃ s', eval (S fuel) (LetExpr lname value body span) s = (Ok r, s') ∧
           stack_frames s' = stack_frames s1 ∧
           (∀ f, top_frame s' = Some f → variables f !! name lname = None)) ∧
  (∀ e s3, eval fuel body s2 = (Raise e, s3) →
     eval (S fuel) (LetExpr lname value body span) s = (Raise e, s3)).
Proof.
  intros Hval Hpush.
  change (eval (S fuel) (LetExpr lname value body span))
    with (val <- eval fuel value ;; push_var lname val ;;;
          body_value <- eval fuel body ;; pop_var lname ;;; ret body_value).
  rewrite (bind_Ok _ _ _ _ _ Hval), (bind_Ok _ _ _ _ _ Hpush).
  apply push_var_Ok in Hpush as (fs & f & Hs1 & Hfresh & ->). split.
  - intros r [fs3 a3] Hbody. rewrite (bind_Ok _ _ _ _ _ Hbody).
    apply frames_kept_eval in Hbody. simpl in Hbody. subst fs3.
    unfold bind. rewrite pop_var_snoc. simpl. rewrite lookup_insert_eq.
    rewrite delete_insert_eq, delete_id, frame_eta by done.
    eexists. split; [done|]. simpl. split; [done|].
    unfold top_frame. simpl. rewrite last_snoc. by intros g [= <-].
  - intros e s3 Hbody. by rewrite (bind_Raise _ _ _ _ _ Hbody).
Qed.

Lemma LetExpr_unbinds_on_normal_exit_witness :
  ∃ s', eval 3 (LetExpr (var_ "a") (ValueE 5 E) (VarE (var_ "a")) E) Context_init =
          (Ok (Value 5 E), s') ∧
        stack_frames s' = stack_frames Context_init ∧
        (∀ f, top_frame s' = Some f → variables f !! "a" = None).
Proof.
  assert (eval 2 (ValueE 5 E) Context_init = (Ok (Value 5 E), Context_init)) as Hval
    by reflexivity.
  assert (push_var (var_ "a") (Value 5 E) Context_init = (Ok tt, a_bound)) as Hpush
    by reflexivity.
  assert (eval 2 (VarE (var_ "a")) a_bound = (Ok (Value 5 E), a_bound)) as Hbody
    by (vm_compute; reflexivity).
  exact (proj1 (LetExpr_unbinds_on_normal_exit 2 (var_ "a") (ValueE 5 E)
                  (VarE (var_ "a")) E Context_init Context_init a_bound (Value 5 E)
                  Hval Hpush) (Value 5 E) a_bound Hbody).
Defined.

(** C2, as stated, fails: in [let a = 5.0 in b] the body raises, and the
    binding of [a] is still in the current frame afterwards. *)
Lemma LetExpr_keeps_binding_on_error :
  eval 3 let_unbound Context_init =
    (Raise (InterpreterException "no variable with name 'b'" E), a_bound) ∧
  (top_frame a_bound ≫= λ f, variables f !! "a") = Some (Value 5 E).
Proof. split; vm_compute; reflexivity. Qed.

(** ** Conditions and sums *)

(** C8. When the inner expression evaluates to a [Value], [ConditionExpr]
    returns a raw boolean, which is [true] exactly when the number of the
    value is not equal to [0.0]; over [0.0] it is [False], over [1.4] it is
    [True]. *)
Theorem ConditionExpr_truth (fuel : nat) (condition : Expr) (span vspan : Span)
    (s s' : State) (v : float) :
  eval fuel condition s = (Ok (Value v vspan), s') →
  (∃ b, eval (S fuel) (ConditionExpr condition span) s = (Ok (PyBool b), s') ∧
        (b = true ↔ (v =? 0)%float = false)) ∧
  eval 2 (ConditionExpr (ValueE 0 E) E) Context_init = (Ok (PyBool false), Context_init) ∧
  eval 2 (ConditionExpr (ValueE one_point_four E) E) Context_init =
    (Ok (PyBool true), Context_init).
Proof.
  intros Hv. split; [|split; vm_compute; reflexivity].
  exists (negb (v =? 0)%float). split.
  - change (eval (S fuel) (ConditionExpr condition span))
      with (o <- eval fuel condition ;; v <- get_value o ;;
            ret (PyBool (negb (py_in v FALSE_VALUES)))).
    rewrite (bind_Ok _ _ _ _ _ Hv). unfold bind, get_value, ret, py_in. simpl.
    by rewrite orb_false_r.
  - apply negb_true_iff.
Qed.

Lemma ConditionExpr_truth_witness :
  ∃ b, eval 2 (ConditionExpr (ValueE one_point_four E) E) Context_init =
         (Ok (PyBool b), Context_init) ∧
       (b = true ↔ (one_point_four =? 0)%float = false).
Proof.
  assert (eval 1 (ValueE one_point_four E) Context_init =
            (Ok (Value one_point_four E), Context_init)) as Hv by reflexivity.
  exact (proj1 (ConditionExpr_truth 1 (ValueE one_point_four E) E E
                  Context_init Context_init one_point_four Hv)).
Defined.

(** [AdditiveExpr.eval] never looks at [self.operator]. *)
Lemma AdditiveExpr_ignores_operator (fuel : nat) (lhs rhs : Expr)
    (operator : AdditiveOp) (span : Span) :
  eval fuel (AdditiveExpr lhs operator rhs span) =
  eval fuel (AdditiveExpr lhs ADDITION rhs span).
Proof. by destruct fuel. Qed.

(** The left operand is evaluated first, the right one in the state the
    left one leaves; the result is a new [Value] holding the sum, with the
    span of the node. *)
Lemma AdditiveExpr_adds (fuel : nat) (lhs rhs : Expr) (operator : AdditiveOp)
    (span lspan rspan : Span) (s s1 s2 : State) (x y : float) :
  eval fuel lhs s = (Ok (Value x lspan), s1) →
  eval fuel rhs s1 = (Ok (Value y rspan), s2) →
  eval (S fuel) (AdditiveExpr lhs operator rhs span) s = (Ok (Value (x + y)%float span), s2).
Proof.
  intros Hl Hr.
  change (eval (S fuel) (AdditiveExpr lhs operator rhs span))
    with (lhs_value <- eval fuel lhs ;; rhs_value <- eval fuel rhs ;;
          new_value <- py_add lhs_value rhs_value ;;
          match new_value with
          | PyFloat f => ret (Value f span)
          | PyInt _ => raise AssertionError
          end).
  by rewrite (bind_Ok _ _ _ _ _ Hl), (bind_Ok _ _ _ _ _ Hr).
Qed.

(** C9 fails for [SUBTRACTION]: [5.0 - 3.0] evaluates to [8.0]. *)
Theorem AdditiveExpr_subtraction_adds :
  eval 2 (AdditiveExpr (ValueE 5 E) SUBTRACTION (ValueE 3 E) E) Context_init =
    (Ok (Value 8 E), Context_init).
Proof. vm_compute. reflexivity. Qed.

(** ** Program.run *)

(** [run] registers a [Function] statement in the current frame. *)
Lemma run_statement_Function (fuel : nat) (fn : Function) :
  run_statement fuel (StFunction fn) = push_function fn.
Proof. done. Qed.

(** No expression statement is ever evaluated successfully: an instance of
    a subclass of [Expr] is not of type [Expr], and a direct instance has
    no [eval]. *)
Lemma run_statement_Expr (fuel : nat) (e : Expr) (s : State) :
  run_statement (S fuel) (StExpr e) s =
    match e with
    | ExprBase _ => (Raise (Exception "Unimplemented"), s)
    | _ => (Raise expected_function_or_expr, s)
    end.
Proof. by destruct e. Qed.

(** C3 fails for expression statements: the program made of the single
    statement [1.0] raises [TypeError] instead of evaluating it. *)
Theorem run_rejects_expression_statement :
  run 5 [StExpr (ValueE 1 E)] Context_init =
    (Raise (TypeError "Expected Function or Expr"), Context_init).
Proof. vm_compute. reflexivity. Qed.

(** ** Lambdas bind in the caller's frame *)

(** C10. A call of a lambda one of whose parameter names is bound as a
    variable in the caller's current frame raises the shadowing
    [InterpreterException]: both [Function.eval] on the armed lambda and a
    [FunctionCall] node that resolves to it, once its arguments have been
    evaluated. *)
Theorem lambda_parameter_collision (fuel : nat) (fn : Function) (s : State)
    (f : Frame) (x : Var) :
  is_lambda fn = true →
  top_frame s = Some f →
  x ∈ fn_args fn →
  is_Some (variables f !! name x) →
  (∀ argv, fn_argv s !! fn_id fn = Some argv → length argv = length (fn_args fn) →
     ∃ s', Function_eval (eval fuel) fn s = (Raise shadowing, s')) ∧
  (∀ fname argv span vs s1,
     get_function fname (length argv) s = (Ok fn, s) →
     length (fn_args fn) = length argv →
     map_eval (eval fuel) argv s = (Ok vs, s1) →
     ∃ s', eval (S fuel) (FunctionCall fname argv span) s = (Raise shadowing, s')).
Proof.
  intros Hlam Htop Hx Hbound.
  assert (∀ argv a, length argv = length (fn_args fn) →
            ∃ s', Function_eval_armed (eval fuel) fn argv (mkState (stack_frames s) a) =
                    (Raise shadowing, s')) as Harmed.
  { intros argv a Hlen. apply last_Some in Htop as [fs Hfs]. rewrite Hfs.
    destruct (push_args_loop_bound (fn_args fn) argv fs f a x) as [s' Hs']; [done..|].
    exists s'. unfold Function_eval_armed. rewrite Hlam.
    unfold bind at 1. unfold ret at 1. cbv beta iota.
    apply bind_Raise. unfold push_args, bind, py_assert.
    by rewrite bool_decide_eq_true_2. }
  split.
  - intros argv Harg Hlen. unfold Function_eval. rewrite Harg.
    rewrite (state_eta s). by apply Harmed.
  - intros fname argv span vs s1 Hget Harity Hargs.
    change (eval (S fuel) (FunctionCall fname argv span))
      with (fn <- get_function fname (length argv) ;;
            vs <- map_eval (eval fuel) argv ;; call (eval fuel) fn vs).
    rewrite (bind_Ok _ _ _ _ _ Hget), (bind_Ok _ _ _ _ _ Hargs).
    pose proof (map_eval_length _ _ _ _ _ Hargs) as Hlen.
    apply frames_kept_map_eval in Hargs; [|apply frames_kept_eval].
    rewrite (state_eta s1), Hargs, call_armed by congruence.
    apply Harmed. congruence.
Qed.

Lemma lambda_parameter_collision_witness :
  ∃ s', eval 3 call_lambda lambda_in_a_bound = (Raise shadowing, s').
Proof.
  assert (top_frame lambda_in_a_bound =
            Some (mkFrame {[ "a" := Value 5 E ]} {[ ("lambda", 2%nat) := lambda_fn ]}))
    as Htop by reflexivity.
  assert (var_ "a" ∈ fn_args lambda_fn) as Hx by apply list_elem_of_here.
  assert (get_function (var_ "lambda") 2 lambda_in_a_bound =
            (Ok lambda_fn, lambda_in_a_bound)) as Hget by (vm_compute; reflexivity).
  assert (map_eval (eval 2) [ValueE 4 E; ValueE 1 E] lambda_in_a_bound =
            (Ok [Value 4 E; Value 1 E], lambda_in_a_bound)) as Hargs by reflexivity.
  refine (proj2 (lambda_parameter_collision 2 lambda_fn lambda_in_a_bound _
                   (var_ "a") eq_refl Htop Hx _)
            (var_ "lambda") [ValueE 4 E; ValueE 1 E] E _ _ Hget eq_refl Hargs).
  exists (Value 5 E). reflexivity.
Defined.

Lemma double_binding_is_refused_witness :
  push_var (var_ "a") (Value 6 E) a_bound = (Raise shadowing, a_bound) ∧
  push_function sum_fn sum_registered =
    (Raise (InterpreterException
       "function 'sum' with 2 arguments is already defined, and name shadowing is not supported"
       E), sum_registered).
Proof.
  assert (push_var (var_ "a") (Value 5 E) Context_init = (Ok tt, a_bound)) as Hv
    by reflexivity.
  assert (push_function sum_fn Context_init = (Ok tt, sum_registered)) as Hf
    by reflexivity.
  split.
  - exact (proj1 (double_binding_is_refused Context_init a_bound (var_ "a") (var_ "a")
                    (Value 5 E) (Value 6 E) sum_fn sum_fn) Hv eq_refl).
  - exact (proj2 (double_binding_is_refused Context_init sum_registered (var_ "a")
                    (var_ "a") (Value 5 E) (Value 6 E) sum_fn sum_fn) Hf eq_refl eq_refl).
Defined.

(** ** The tests of the source, on the model *)

Example test_let_expr :
  eval 3 (LetExpr (var_ "a") (ValueE 5 E) (VarE (var_ "a")) E) Context_init =
    (Ok (Value 5 E), Context_init).
Proof. vm_compute. reflexivity. Qed.

Example test_simple_lambda_expr :
  eval 5 (LambdaExpr 2 "lambda" [var_ "a"; var_ "b"]
            (AdditiveExpr (VarE (var_ "a")) ADDITION (VarE (var_ "b")) E)
            call_lambda E) Context_init =
    (Ok (Value 5 E), Context_init).
Proof. vm_compute. reflexivity. Qed.

Example test_simple_function :
  run 1 [StFunction sum_fn] Context_init = (Ok tt, sum_registered) ∧
  eval 3 call_sum sum_registered = (Ok (Value 9 E), sum_registered).
Proof. split; vm_compute; reflexivity. Qed.

Example test_additive_expr :
  eval 2 (AdditiveExpr (ValueE 4 E) ADDITION (ValueE 4 E) E) Context_init =
    (Ok (Value 8 E), Context_init).
Proof. vm_compute. reflexivity. Qed.

Example test_comparison_expr :
  let cmp l op r := (eval 2 (ComparisonExpr (ValueE l E) op (ValueE r E) E) Context_init).1 in
  cmp 0%float GT (-1)%float = Ok (PyBool true) ∧
  cmp 0%float GT 1%float = Ok (PyBool false) ∧
  cmp (-1)%float GTE (-1)%float = Ok (PyBool true) ∧
  cmp 0%float GTE 1%float = Ok (PyBool false) ∧
  cmp 0%float LT 1%float = Ok (PyBool true) ∧
  cmp 0%float LT (-1)%float = Ok (PyBool false) ∧
  cmp 1%float LTE 1%float = Ok (PyBool true) ∧
  cmp 0%float LTE (-1)%float = Ok (PyBool false) ∧
  cmp 0%float EQ 0%float = Ok (PyBool true) ∧
  cmp (-1)%float EQ 1%float = Ok (PyBool false) ∧
  cmp 0%float NEQ (-1)%float = Ok (PyBool true) ∧
  cmp 0%float NEQ 0%float = Ok (PyBool false).
Proof. vm_compute. repeat split. Qed.

(** In the language itself: [let a = 5.0 in let lambda a b = a + b in
    lambda(4.0, 1.0)] stops on the collision of the parameter [a]. *)
Example lambda_collides_with_let :
  (eval 6 (LetExpr (var_ "a") (ValueE 5 E)
             (LambdaExpr 2 "lambda" [var_ "a"; var_ "b"]
                (AdditiveExpr (VarE (var_ "a")) ADDITION (VarE (var_ "b")) E)
                call_lambda E) E) Context_init).1 = Raise shadowing.
Proof. vm_compute. reflexivity. Qed.


(** ** Further properties of the Context *)

(** X1. [pop_var] undoes [push_var]: popping a variable right after it was
    pushed returns the pushed object and gives back the state the push
    started from. *)
Theorem push_then_pop_var (s s1 : State) (var : Var) (v : Obj) :
  push_var var v s = (Ok tt, s1) →
  pop_var var s1 = (Ok v, s).
Proof.
  intros H. apply push_var_Ok in H as (fs & f & Hs & Hfresh & ->).
  rewrite pop_var_snoc. simpl. rewrite lookup_insert_eq.
  rewrite delete_insert_eq, delete_id, frame_eta by done.
  by rewrite <- Hs, <- state_eta.
Qed.

Lemma push_then_pop_var_witness :
  pop_var (var_ "a") a_bound = (Ok (Value 5 E), Context_init).
Proof.
  assert (push_var (var_ "a") (Value 5 E) Context_init = (Ok tt, a_bound)) as H
    by reflexivity.
  exact (push_then_pop_var Context_init a_bound (var_ "a") (Value 5 E) H).
Defined.

(** X2. [pop_function] undoes [push_function]: it returns the function
    that was registered and gives back the state the registration started
    from. *)
Theorem push_then_pop_function (s s1 : State) (fn : Function) :
  push_function fn s = (Ok tt, s1) →
  pop_function fn s1 = (Ok fn, s).
Proof.
  intros H. apply push_function_Ok in H as (fs & f & Hs & Hfresh & ->).
  rewrite pop_function_snoc. simpl. rewrite lookup_insert_eq.
  rewrite delete_insert_eq, delete_id, frame_eta by done.
  by rewrite <- Hs, <- state_eta.
Qed.

Lemma push_then_pop_function_witness :
  pop_function sum_fn sum_registered = (Ok sum_fn, Context_init).
Proof.
  assert (push_function sum_fn Context_init = (Ok tt, sum_registered)) as H
    by reflexivity.
  exact (push_then_pop_function Context_init sum_registered sum_fn H).
Defined.

(** X3. [pop_var] looks at the current frame only: when the current frame
    does not bind the name it raises, with the span of the variable, and
    changes nothing -- even if a lower frame binds the name, which
    [get_var] would find. *)
Theorem pop_var_only_current_frame (s : State) (f : Frame) (var : Var) :
  top_frame s = Some f →
  variables f !! name var = None →
  pop_var var s =
    (Raise (InterpreterException
       "tried to pop var which hasn't been added to the current stack frame"
       (var_span var)), s).
Proof.
  intros Htop Hf. apply last_Some in Htop as [fs Hfs].
  rewrite (state_eta s), Hfs, pop_var_snoc. by rewrite Hf.
Qed.

Lemma pop_var_only_current_frame_witness :
  get_var (var_ "x") three_frames = (Ok (Value 7 E), three_frames) ∧
  pop_var (var_ "x") three_frames =
    (Raise (InterpreterException
       "tried to pop var which hasn't been added to the current stack frame" E),
     three_frames).
Proof.
  split; [vm_compute; reflexivity|].
  exact (pop_var_only_current_frame three_frames top_y (var_ "x") eq_refl eq_refl).
Defined.

(** X4. [pop_function] raises, with the span of the function and a reason
    spelling its name and arity, when the current frame does not hold the
    [(name, arity)] key, and changes nothing. *)
Theorem pop_function_only_current_frame (s : State) (f : Frame) (fn : Function) :
  top_frame s = Some f →
  functions f !! (name (fn_name fn), length (fn_args fn)) = None →
  pop_function fn s =
    (Raise (InterpreterException
       ("tried top pop function '" +:+ name (fn_name fn) +:+ "' with " +:+
        pretty (length (fn_args fn)) +:+
        " arguments which hasn't been added to the current stack frame")
       (fn_span fn)), s).
Proof.
  intros Htop Hf. apply last_Some in Htop as [fs Hfs].
  rewrite (state_eta s), Hfs, pop_function_snoc. simpl. by rewrite Hf.
Qed.

Lemma pop_function_only_current_frame_witness :
  pop_function sum1_fn sum_registered =
    (Raise (InterpreterException
       "tried top pop function 'sum' with 1 arguments which hasn't been added to the current stack frame"
       E), sum_registered).
Proof.
  exact (pop_function_only_current_frame sum_registered
           (mkFrame ∅ {[ ("sum", 2%nat) := sum_fn ]}) sum1_fn eq_refl eq_refl).
Defined.

(** X5. A binding in a higher frame hides the bindings of the frames
    below: [get_var] returns the binding of the highest frame that binds
    the name, whatever the lower frames hold. *)
Theorem get_var_topmost_binding (s : State) (var : Var) (i : nat) (fi : Frame) (v : Obj) :
  stack_frames s !! i = Some fi →
  variables fi !! name var = Some v →
  (∀ (j : nat) fj, (i < j)%nat → stack_frames s !! j = Some fj →
     variables fj !! name var = None) →
  get_var var s = (Ok v, s).
Proof.
  intros Hi Hv Habove.
  rewrite get_var_spec by (intros Hnil; by rewrite Hnil in Hi).
  by rewrite (first_binding_topmost _ _ i fi v Hi Hv Habove).
Qed.

Lemma get_var_topmost_binding_witness :
  get_var (var_ "x") shadowed_x = (Ok (Value 8 E), shadowed_x).
Proof.
  apply (get_var_topmost_binding shadowed_x (var_ "x") 1
           (mkFrame {[ "x" := Value 8 E ]} ∅) (Value 8 E)).
  - reflexivity.
  - reflexivity.
  - intros j fj Hj Hl. destruct j as [|[|[|j]]]; simpl in Hl; try done; try lia.
    injection Hl as <-. reflexivity.
Defined.

(** X6. A variable that was just pushed is the one [get_var] finds, also
    when lower frames bind the same name. *)
Theorem push_var_then_get_var (s s1 : State) (var : Var) (v : Obj) :
  push_var var v s = (Ok tt, s1) →
  get_var var s1 = (Ok v, s1).
Proof.
  intros H. apply push_var_Ok in H as (fs & f & Hs & Hfresh & ->).
  rewrite get_var_spec by (simpl; by destruct fs).
  simpl. rewrite reverse_snoc. simpl. by rewrite lookup_insert_eq.
Qed.

Lemma push_var_then_get_var_witness :
  get_var (var_ "a") a_bound = (Ok (Value 5 E), a_bound).
Proof.
  assert (push_var (var_ "a") (Value 5 E) Context_init = (Ok tt, a_bound)) as H
    by reflexivity.
  exact (push_var_then_get_var Context_init a_bound (var_ "a") (Value 5 E) H).
Defined.

(** X7. Functions are keyed by name and arity together.  After a
    successful [push_function], [get_function] on the name and arity of
    the function returns it, and the resolution of every other
    [(name, arity)] pair -- the same name with another arity included --
    is what it was before. *)
Theorem push_function_then_get_function (s s1 : State) (fn : Function) :
  push_function fn s = (Ok tt, s1) →
  get_function (fn_name fn) (length (fn_args fn)) s1 = (Ok fn, s1) ∧
  (∀ var argn, (name var, argn) ≠ (name (fn_name fn), length (fn_args fn)) →
     (get_function var argn s1).1 = (get_function var argn s).1).
Proof.
  intros H. apply push_function_Ok in H as (fs & f & Hs & Hfresh & ->). split.
  - rewrite get_function_spec by (simpl; by destruct fs).
    simpl. rewrite reverse_snoc. simpl. by rewrite lookup_insert_eq.
  - intros var argn Hne.
    rewrite !get_function_spec by (try rewrite Hs; simpl; by destruct fs).
    simpl. rewrite Hs, !reverse_snoc. simpl.
    rewrite lookup_insert_ne by done.
    destruct (functions f !! (name var, argn)); [done|].
    by destruct (first_binding _ _).
Qed.

Lemma push_function_then_get_function_witness :
  let s1 := (push_function sum1_fn sum_registered).2 in
  get_function (var_ "sum") 1 s1 = (Ok sum1_fn, s1) ∧
  (get_function (var_ "sum") 2 s1).1 = Ok sum_fn.
Proof.
  assert (push_function sum1_fn sum_registered =
            (Ok tt, (push_function sum1_fn sum_registered).2)) as H
    by (vm_compute; reflexivity).
  destruct (push_function_then_get_function _ _ _ H) as [H1 H2].
  split; [exact H1|].
  etransitivity; [apply (H2 (var_ "sum") 2%nat); by intros [=]|].
  vm_compute. reflexivity.
Defined.

(** X8. Bounds of [get_stack_frame].  A positive offset trips the
    assertion; an offset below [-len] answers [None]; an offset from
    [-len] to [-1] answers the frame counted from the top ([-1] is the
    current frame); offset [0] answers the bottom frame, and is an
    [IndexError] on an empty stack.  The state is never changed. *)
Theorem get_stack_frame_bounds (fs : list Frame) (a : gmap positive (list Obj))
    (offset : Z) :
  (0 < offset →
     get_stack_frame offset (mkState fs a) = (Raise AssertionError, mkState fs a)) ∧
  (offset < - Z.of_nat (length fs) →
     get_stack_frame offset (mkState fs a) = (Ok None, mkState fs a)) ∧
  (- Z.of_nat (length fs) ≤ offset < 0 →
     ∃ f, fs !! Z.to_nat (Z.of_nat (length fs) + offset) = Some f ∧
          get_stack_frame offset (mkState fs a) = (Ok (Some f), mkState fs a)) ∧
  (offset = 0 →
     get_stack_frame offset (mkState fs a) =
       match fs with
       | [] => (Raise IndexError, mkState fs a)
       | f :: _ => (Ok (Some f), mkState fs a)
       end).
Proof.
  unfold get_stack_frame, bind, py_assert, py_index. split_and!.
  - intros H. by rewrite bool_decide_eq_false_2 by lia.
  - intros H. rewrite bool_decide_eq_true_2 by lia. simpl.
    by rewrite decide_True by lia.
  - intros H. rewrite bool_decide_eq_true_2 by lia. simpl.
    rewrite decide_False by lia. rewrite decide_False by lia.
    destruct (lookup_lt_is_Some_2 fs (Z.to_nat (Z.of_nat (length fs) + offset)))
      as [f Hf]; [lia|].
    exists f. by rewrite Hf.
  - intros ->. simpl. rewrite decide_False by lia. by destruct fs.
Qed.

Lemma get_stack_frame_bounds_witness :
  ∃ f, [base_x; empty_frame; top_y] !! 1%nat = Some f ∧
       get_stack_frame (-2) three_frames = (Ok (Some f), three_frames).
Proof.
  apply (proj1 (proj2 (proj2 (get_stack_frame_bounds [base_x; empty_frame; top_y] ∅ (-2))))).
  simpl. lia.
Defined.

(** X9. Lookups only read.  Whatever [get_var] and [get_function] answer
    -- a binding, or an exception -- the state is untouched, and their
    [while] loop always comes to an answer within the bound of the model. *)
Theorem lookups_only_read (s s' : State) (var : Var) (argn : nat)
    (o1 : Outcome Obj) (o2 : Outcome Function) :
  (get_var var s = (o1, s') → s' = s ∧ o1 ≠ OutOfFuel) ∧
  (get_function var argn s = (o2, s') → s' = s ∧ o2 ≠ OutOfFuel).
Proof.
  split; intros H.
  - split; [by eapply get_var_state|]. revert H.
    destruct (frames_snoc_or_nil (stack_frames s)) as [Hnil|(fs & f & Hs)].
    + unfold get_var, bind, current_stack_frame. rewrite Hnil. simpl. congruence.
    + rewrite get_var_spec by (rewrite Hs; by destruct fs).
      destruct (first_binding _ _); congruence.
  - split; [by eapply get_function_state|]. revert H.
    destruct (frames_snoc_or_nil (stack_frames s)) as [Hnil|(fs & f & Hs)].
    + unfold get_function, bind, current_stack_frame. rewrite Hnil. simpl. congruence.
    + rewrite get_function_spec by (rewrite Hs; by destruct fs).
      destruct (first_binding _ _); congruence.
Qed.

Lemma lookups_only_read_witness :
  three_frames = three_frames ∧ Ok (Value 7 E) ≠ OutOfFuel.
Proof.
  assert (get_var (var_ "x") three_frames = (Ok (Value 7 E), three_frames)) as H
    by (vm_compute; reflexivity).
  exact (proj1 (lookups_only_read three_frames three_frames (var_ "x") 0
                  (Ok (Value 7 E)) OutOfFuel) H).
Defined.

(** X10. On an empty frame stack -- a context whose base frame was popped
    -- the operations that start from the current frame trip the assertion
    of [current_stack_frame], lookups included, and [pop_stack_frame] is an
    [IndexError]; popping the only frame of a fresh context leads there. *)
Theorem empty_stack_operations (a : gmap positive (list Obj)) (var : Var) (v : Obj)
    (fn : Function) (argn : nat) :
  pop_stack_frame Context_init = (Ok empty_frame, mkState [] ∅) ∧
  pop_stack_frame (mkState [] a) = (Raise IndexError, mkState [] a) ∧
  push_var var v (mkState [] a) = (Raise AssertionError, mkState [] a) ∧
  pop_var var (mkState [] a) = (Raise AssertionError, mkState [] a) ∧
  push_function fn (mkState [] a) = (Raise AssertionError, mkState [] a) ∧
  pop_function fn (mkState [] a) = (Raise AssertionError, mkState [] a) ∧
  get_var var (mkState [] a) = (Raise AssertionError, mkState [] a) ∧
  get_function var argn (mkState [] a) = (Raise AssertionError, mkState [] a).
Proof. by split_and!. Qed.

(** ** Further properties of evaluation *)

(** X11. Every successful evaluation, of any expression, leaves the frame
    stack exactly as it found it: the frames pushed by calls, the variables
    bound by [let] and by parameter passing and the lambdas registered on
    the way have all been removed again. *)
Theorem successful_eval_restores_frames (fuel : nat) (e : Expr) (s s' : State) (r : Obj) :
  eval fuel e s = (Ok r, s') →
  stack_frames s' = stack_frames s.
Proof. apply frames_kept_eval. Qed.

Lemma successful_eval_restores_frames_witness :
  stack_frames Context_init = stack_frames Context_init.
Proof.
  assert (eval 5 (LambdaExpr 2 "lambda" [var_ "a"; var_ "b"]
            (AdditiveExpr (VarE (var_ "a")) ADDITION (VarE (var_ "b")) E)
            call_lambda E) Context_init = (Ok (Value 5 E), Context_init)) as H
    by (vm_compute; reflexivity).
  exact (successful_eval_restores_frames _ _ _ _ _ H).
Defined.

(** X12. The [argv] attributes of the Function objects never influence an
    evaluation: started on the same frame stack with any two contents of
    these attributes, [eval] has the same outcome and leaves the same frame
    stack.  Every call arms its function itself before reading [argv]. *)
Theorem eval_ignores_pending_arguments (fuel : nat) (e : Expr) (fs : list Frame)
    (a1 a2 : gmap positive (list Obj)) :
  (eval fuel e (mkState fs a1)).1 = (eval fuel e (mkState fs a2)).1 ∧
  stack_frames (eval fuel e (mkState fs a1)).2 =
    stack_frames (eval fuel e (mkState fs a2)).2.
Proof. apply argv_blind_eval. Qed.

(** ** The height of the frame stack *)

Section stack_bound.
Implicit Types (s : State) (fs : list Frame) (f : Frame)
  (a : gmap positive (list Obj)) (var : Var) (fn : Function) (n k : nat).

Lemma stack_bound_bind {A B} n k j (m : M A) (c : A → M B) :
  (j ≤ k)%nat → stack_bound n k m → (∀ x, stack_bound k j (c x)) →
  stack_bound n j (bind m c).
Proof.
  intros Hjk Hm Hc s o s' Hn. unfold bind.
  destruct (m s) as [[x|e|] s1] eqn:E; specialize (Hm _ _ _ Hn E).
  - by apply Hc.
  - intros [= _ <-]. lia.
  - intros [= _ <-]. lia.
Qed.

(** Operations that keep the number of frames, on every outcome. *)
Lemma stack_bound_same {A} n (m : M A) :
  (∀ s o s', m s = (o, s') → length (stack_frames s') = length (stack_frames s)) →
  stack_bound n n m.
Proof. intros H s o s' Hn E. apply H in E. lia. Qed.

Ltac same_height lem :=
  let fs := fresh "fs" in
  intros [fs ?] ? ?; destruct (frames_snoc_or_nil fs) as [->|(? & ? & ->)];
  [by intros [= _ <-]
  | rewrite lem; simpl; repeat case_match; intros [= _ <-]; simpl;
    rewrite ?length_app; done].

Lemma push_var_height var v s o s' :
  push_var var v s = (o, s') → length (stack_frames s') = length (stack_frames s).
Proof. revert s o s'. same_height push_var_snoc. Qed.

Lemma pop_var_height var s o s' :
  pop_var var s = (o, s') → length (stack_frames s') = length (stack_frames s).
Proof. revert s o s'. same_height pop_var_snoc. Qed.

Lemma push_function_height fn s o s' :
  push_function fn s = (o, s') → length (stack_frames s') = length (stack_frames s).
Proof. revert s o s'. same_height push_function_snoc. Qed.

Lemma pop_function_height fn s o s' :
  pop_function fn s = (o, s') → length (stack_frames s') = length (stack_frames s).
Proof. revert s o s'. same_height pop_function_snoc. Qed.

Lemma stack_bound_ret {A} n (x : A) : stack_bound n n (ret x).
Proof. apply stack_bound_same. by intros s o s' [= _ <-]. Qed.

Lemma stack_bound_raise {A} n e : stack_bound n n (@raise A e).
Proof. apply stack_bound_same. by intros s o s' [= _ <-]. Qed.

Lemma stack_bound_push_args n (args : list Var) (vs : list Obj) :
  stack_bound n n (push_args args vs).
Proof.
  apply (stack_bound_bind n n n); [done| |].
  { unfold py_assert. destruct (bool_decide _);
      [apply stack_bound_ret|apply stack_bound_raise]. }
  intros _. revert vs. induction args as [|x args IH]; intros [|v vs]; simpl;
    try apply stack_bound_ret.
  apply (stack_bound_bind n n n); [done| |by intros _].
  apply stack_bound_same, push_var_height.
Qed.

Lemma stack_bound_pop_args n (args : list Var) : stack_bound n n (pop_args args).
Proof.
  induction args as [|x args IH]; simpl; [apply stack_bound_ret|].
  apply (stack_bound_bind n n n); [done|apply stack_bound_same, pop_var_height|].
  intros v. apply (stack_bound_bind n n n); [done|done|].
  intros vs. apply stack_bound_ret.
Qed.

Lemma stack_bound_push_stack_frame n : stack_bound n (S n) push_stack_frame.
Proof.
  intros s o s' Hn [= _ <-]. simpl. rewrite length_app. simpl. lia.
Qed.

Lemma stack_bound_pop_stack_frame n : stack_bound (S n) n pop_stack_frame.
Proof.
  intros [fs a] o s' Hn. simpl in Hn.
  destruct (frames_snoc_or_nil fs) as [->|(fs' & f & ->)]; [simpl in Hn; lia|].
  rewrite pop_stack_frame_snoc. intros [= _ <-]. simpl.
  rewrite length_app in Hn. simpl in Hn. lia.
Qed.

Lemma stack_bound_armed n (ev : Expr → M Obj) fn argv :
  (∀ k, stack_bound k k (ev (fn_body fn))) →
  stack_bound n n (Function_eval_armed ev fn argv).
Proof.
  intros Hev. unfold Function_eval_armed. destruct (is_lambda fn).
  - apply (stack_bound_bind n n n); [done|apply stack_bound_ret|]. intros _.
    apply (stack_bound_bind n n n); [done|apply stack_bound_push_args|]. intros _.
    apply (stack_bound_bind n n n); [done|done|]. intros r.
    apply (stack_bound_bind n n n); [done|by apply stack_bound_same; intros ??? [= _ <-]|].
    intros _.
    apply (stack_bound_bind n n n); [done|apply stack_bound_pop_args|]. intros _.
    apply (stack_bound_bind n n n); [done|apply stack_bound_ret|]. intros _.
    apply stack_bound_ret.
  - apply (stack_bound_bind n (S n) n); [lia|apply stack_bound_push_stack_frame|].
    intros _.
    apply (stack_bound_bind (S n) (S n) n); [lia|apply stack_bound_push_args|]. intros _.
    apply (stack_bound_bind (S n) (S n) n); [lia|done|]. intros r.
    apply (stack_bound_bind (S n) (S n) n);
      [lia|by apply stack_bound_same; intros ??? [= _ <-]|].
    intros _.
    apply (stack_bound_bind (S n) (S n) n); [lia|apply stack_bound_pop_args|]. intros _.
    apply (stack_bound_bind (S n) n n); [done| |intros _; apply stack_bound_ret].
    apply (stack_bound_bind (S n) n n); [done|apply stack_bound_pop_stack_frame|].
    intros _. apply stack_bound_ret.
Qed.

Lemma stack_bound_Function_eval n (ev : Expr → M Obj) fn :
  (∀ k, stack_bound k k (ev (fn_body fn))) →
  stack_bound n n (Function_eval ev fn).
Proof.
  intros Hev s o s' Hn. unfold Function_eval.
  destruct (fn_argv s !! fn_id fn) as [argv|].
  - by apply stack_bound_armed.
  - intros [= _ <-]. lia.
Qed.

Lemma stack_bound_map_eval n (ev : Expr → M Obj) es :
  (∀ e, stack_bound n n (ev e)) → stack_bound n n (map_eval ev es).
Proof.
  intros Hev. induction es as [|e es IH]; simpl; [apply stack_bound_ret|].
  apply (stack_bound_bind n n n); [done|done|]. intros v.
  apply (stack_bound_bind n n n); [done|done|]. intros vs. apply stack_bound_ret.
Qed.

Lemma stack_bound_eval fuel : ∀ e n, stack_bound n n (eval fuel e).
Proof.
  induction fuel as [|fuel IH]; intros e n.
  { intros s o s' Hn [= _ <-]. lia. }
  destruct e; simpl.
  - apply stack_bound_raise.
  - apply stack_bound_ret.
  - apply stack_bound_same. intros s o s' H. apply get_var_state in H. by subst.
  - apply (stack_bound_bind n n n); [done|done|]. intros l.
    apply (stack_bound_bind n n n); [done|done|]. intros r.
    apply (stack_bound_bind n n n); [done| |].
    + destruct l, r; simpl; (apply stack_bound_ret || apply stack_bound_raise).
    + intros [x|z]; [apply stack_bound_ret|apply stack_bound_raise].
  - apply (stack_bound_bind n n n); [done|done|]. intros o.
    apply (stack_bound_bind n n n); [done| |intros v; apply stack_bound_ret].
    destruct o; simpl; (apply stack_bound_ret || apply stack_bound_raise).
  - apply (stack_bound_bind n n n); [done|done|]. intros l.
    apply (stack_bound_bind n n n); [done|done|]. intros r.
    destruct l, r; simpl; (apply stack_bound_ret || apply stack_bound_raise).
  - apply (stack_bound_bind n n n);
      [done|apply stack_bound_same, push_function_height|]. intros _.
    apply (stack_bound_bind n n n); [done|done|]. intros r.
    apply (stack_bound_bind n n n);
      [done|apply stack_bound_same, pop_function_height|]. intros _.
    apply stack_bound_ret.
  - apply (stack_bound_bind n n n); [done|done|]. intros v.
    apply (stack_bound_bind n n n); [done|apply stack_bound_same, push_var_height|].
    intros _.
    apply (stack_bound_bind n n n); [done|done|]. intros r.
    apply (stack_bound_bind n n n); [done|apply stack_bound_same, pop_var_height|].
    intros _. apply stack_bound_ret.
  - apply (stack_bound_bind n n n); [done| |].
    { apply stack_bound_same. intros s o s' H. apply get_function_state in H. by subst. }
    intros fn.
    apply (stack_bound_bind n n n); [done|by apply stack_bound_map_eval|]. intros vs.
    apply (stack_bound_bind n n n); [done| |].
    { apply stack_bound_same. intros s o s'. unfold set_args.
      destruct (decide _); by intros [= _ <-]. }
    intros _. apply stack_bound_Function_eval. intros k. apply IH.
  - apply (stack_bound_bind n n n); [done|done|]. intros c.
    destruct (truthy c); apply IH.
Qed.
End stack_bound.

(** X13. Evaluation never removes a frame it did not push: whatever the
    outcome -- a result or an exception -- the stack has at least as many
    frames afterwards as before.  In particular the base frame of a context
    survives every evaluation. *)
Theorem eval_never_shrinks_stack (fuel : nat) (e : Expr) (s s' : State) (o : Outcome Obj) :
  eval fuel e s = (o, s') →
  (length (stack_frames s) ≤ length (stack_frames s'))%nat.
Proof. intros H. by eapply (stack_bound_eval fuel e (length (stack_frames s))). Qed.

Lemma eval_never_shrinks_stack_witness :
  (length (stack_frames Context_init) ≤ length (stack_frames a_bound))%nat.
Proof.
  assert (eval 3 let_unbound Context_init =
            (Raise (InterpreterException "no variable with name 'b'" E), a_bound)) as H
    by (vm_compute; reflexivity).
  exact (eval_never_shrinks_stack _ _ _ _ _ H).
Defined.

(** X14. A failed call is not cleaned up.  When a call of a non-lambda
    function with distinct parameter names and the right number of
    arguments raises, the exception comes out of the body, and the frame
    pushed for the call is still on the stack: the stack is strictly
    higher than before the call. *)
Theorem failed_call_leaves_its_frame (fuel : nat) (fn : Function) (vs : list Obj)
    (s s' : State) (e : PyExn) :
  is_lambda fn = false →
  length vs = length (fn_args fn) →
  NoDup (name <$> fn_args fn) →
  call (eval fuel) fn vs s = (Raise e, s') →
  eval fuel (fn_body fn)
    (mkState (stack_frames s ++ [call_frame (fn_args fn) vs])
             (<[fn_id fn := vs]> (fn_argv s))) = (Raise e, s') ∧
  (length (stack_frames s) < length (stack_frames s'))%nat.
Proof.
  intros Hlam Hlen Hnd. rewrite (state_eta s) at 1.
  rewrite call_non_lambda by done.
  destruct (eval fuel (fn_body fn) _) as [[r|e'|] s2] eqn:Hbody; try done.
  intros [= <- <-]. split; [done|].
  apply (stack_bound_eval fuel (fn_body fn) (S (length (stack_frames s)))) in Hbody.
  - lia.
  - simpl. rewrite length_app. simpl. lia.
Qed.

Lemma failed_call_leaves_its_frame_witness :
  (length (stack_frames Context_init) <
   length (stack_frames (call (eval 3) bad_fn [Value 1 E] Context_init).2))%nat.
Proof.
  assert (call (eval 3) bad_fn [Value 1 E] Context_init =
            (Raise (InterpreterException "no variable with name 'b'" E),
             (call (eval 3) bad_fn [Value 1 E] Context_init).2)) as H
    by (vm_compute; reflexivity).
  assert (NoDup (name <$> fn_args bad_fn)) as Hnd by apply NoDup_singleton.
  exact (proj2 (failed_call_leaves_its_frame 3 bad_fn [Value 1 E] Context_init _ _
                  eq_refl eq_refl Hnd H)).
Defined.

(** On a non-empty stack the [push_args] loop either binds everything or
    stops on a shadowing. *)
Lemma push_args_loop_outcome (args : list Var) : ∀ (vs : list Obj) fs f a,
  ∃ s', push_args_loop args vs (mkState (fs ++ [f]) a) = (Ok tt, s') ∨
        push_args_loop args vs (mkState (fs ++ [f]) a) = (Raise shadowing, s').
Proof.
  induction args as [|x args IH]; intros [|v vs] fs f a; simpl; eauto.
  unfold bind. rewrite push_var_snoc.
  destruct (variables f !! name x); eauto.
Qed.

(** X15. A function declared with a repeated parameter name can never be
    called: binding the second occurrence collides with the first in the
    frame of the call, and every call with the right number of arguments
    raises the shadowing exception before the body is evaluated. *)
Theorem repeated_parameter_never_callable (ev : Expr → M Obj) (fn : Function)
    (vs : list Obj) (s : State) :
  is_lambda fn = false →
  length vs = length (fn_args fn) →
  ¬ NoDup (name <$> fn_args fn) →
  ∃ s', call ev fn vs s = (Raise shadowing, s').
Proof.
  intros Hlam Hlen Hdup. rewrite (state_eta s), call_armed by done.
  unfold Function_eval_armed. rewrite Hlam.
  unfold bind at 1. rewrite push_stack_frame_eq.
  destruct (push_args_loop_outcome (fn_args fn) vs (stack_frames s) empty_frame
              (<[fn_id fn := vs]> (fn_argv s))) as [s' [Hok|Hraise]].
  - apply push_args_loop_Ok in Hok as (_ & Hnd & _); [|done]. by destruct Hdup.
  - exists s'. apply bind_Raise. unfold push_args, bind, py_assert.
    by rewrite bool_decide_eq_true_2.
Qed.

Lemma repeated_parameter_never_callable_witness :
  ∃ s', call (eval 3) twice_fn [Value 1 E; Value 2 E] Context_init = (Raise shadowing, s').
Proof.
  apply (repeated_parameter_never_callable (eval 3) twice_fn [Value 1 E; Value 2 E]
           Context_init eq_refl eq_refl).
  intros Hnd. apply NoDup_cons in Hnd as [Hnotin _].
  apply Hnotin. apply list_elem_of_here.
Defined.

(** X16. [LambdaExpr.eval] registers its function in the current frame,
    where the usage expression resolves it by name and arity.  When the
    usage expression completes normally the function is unregistered, the
    frame stack is what it was and the result is returned; when it raises,
    the exception propagates with the state as the usage expression left
    it, and nothing is unregistered. *)
Theorem LambdaExpr_scope (fuel : nat) (id : positive) (lname : string) (args : list Var)
    (value body : Expr) (span : Span) (s s1 : State) :
  push_function (as_fn id lname args value span) s = (Ok tt, s1) →
  (∀ sp, get_function (mkVar lname sp) (length args) s1 =
           (Ok (as_fn id lname args value span), s1)) ∧
  (∀ r s2, eval fuel body s1 = (Ok r, s2) →
     ∃ s', eval (S fuel) (LambdaExpr id lname args value body span) s = (Ok r, s') ∧
           stack_frames s' = stack_frames s) ∧
  (∀ e s2, eval fuel body s1 = (Raise e, s2) →
     eval (S fuel) (LambdaExpr id lname args value body span) s = (Raise e, s2)).
Proof.
  intros Hpush.
  change (eval (S fuel) (LambdaExpr id lname args value body span))
    with (push_function (as_fn id lname args value span) ;;;
          result <- eval fuel body ;;
          pop_function (as_fn id lname args value span) ;;; ret result).
  rewrite (bind_Ok _ _ _ _ _ Hpush).
  apply push_function_Ok in Hpush as (fs & f & Hs & Hfresh & ->). simpl in *.
  split_and!.
  - intros sp. rewrite get_function_spec by (simpl; by destruct fs).
    simpl. rewrite reverse_snoc. simpl. by rewrite lookup_insert_eq.
  - intros r [fs2 a2] Hbody. rewrite (bind_Ok _ _ _ _ _ Hbody).
    apply frames_kept_eval in Hbody. simpl in Hbody. subst fs2.
    unfold bind. rewrite pop_function_snoc. simpl. rewrite lookup_insert_eq.
    rewrite delete_insert_eq, delete_id, frame_eta by done.
    eexists. split; [done|]. by simpl.
  - intros e s2 Hbody. by rewrite (bind_Raise _ _ _ _ _ Hbody).
Qed.

Lemma LambdaExpr_scope_witness :
  ∃ s', eval 5 (LambdaExpr 2 "lambda" [var_ "a"; var_ "b"]
                  (AdditiveExpr (VarE (var_ "a")) ADDITION (VarE (var_ "b")) E)
                  call_lambda E) Context_init = (Ok (Value 5 E), s') ∧
        stack_frames s' = stack_frames Context_init.
Proof.
  assert (push_function lambda_fn Context_init =
            (Ok tt, (push_function lambda_fn Context_init).2)) as Hpush
    by (vm_compute; reflexivity).
  assert (eval 4 call_lambda (push_function lambda_fn Context_init).2 =
            (Ok (Value 5 E), (push_function lambda_fn Context_init).2)) as Hbody
    by (vm_compute; reflexivity).
  exact (proj1 (proj2 (LambdaExpr_scope 4 2 "lambda" [var_ "a"; var_ "b"]
                         (AdditiveExpr (VarE (var_ "a")) ADDITION (VarE (var_ "b")) E)
                         call_lambda E Context_init _ Hpush)) _ _ Hbody).
Defined.

(** ** Functions stay under their own key *)

Section keys.
Implicit Types (s : State) (fs : list Frame) (f : Frame)
  (a : gmap positive (list Obj)) (var : Var) (fn : Function).

Lemma keeps_keys_ret {A} (P : A → Prop) (x : A) : P x → keeps_keys P (ret x).
Proof. intros HP s o s' Hwk [= <- <-]. split_and!; [done|done|]. by intros y [= <-]. Qed.

Lemma keeps_keys_raise {A} (P : A → Prop) e :
  e ≠ wrong_number → keeps_keys P (@raise A e).
Proof. intros He s o s' Hwk [= <- <-]. split_and!; [done|congruence|done]. Qed.

Lemma keeps_keys_bind {A B} (P : A → Prop) (Q : B → Prop) (m : M A) (c : A → M B) :
  keeps_keys P m → (∀ x, P x → keeps_keys Q (c x)) → keeps_keys Q (bind m c).
Proof.
  intros Hm Hc s o s' Hwk. unfold bind.
  destruct (m s) as [[x|e|] s1] eqn:E; destruct (Hm _ _ _ Hwk E) as (Hwk1 & Hne & HP).
  - apply Hc; [by apply HP|done].
  - intros [= <- <-]. split_and!; [done|congruence|done].
  - intros [= <- <-]. by split_and!.
Qed.

Lemma keeps_keys_weaken {A} (P Q : A → Prop) (m : M A) :
  (∀ x, P x → Q x) → keeps_keys P m → keeps_keys Q m.
Proof.
  intros HPQ Hm s o s' Hwk E. destruct (Hm _ _ _ Hwk E) as (? & ? & HP).
  split_and!; [done|done|]. intros x Hx. by apply HPQ, HP.
Qed.

Lemma well_keyed_snoc fs f a :
  well_keyed (mkState (fs ++ [f]) a) ↔ Forall well_keyed_frame fs ∧ well_keyed_frame f.
Proof. unfold well_keyed. simpl. rewrite Forall_app, Forall_singleton. tauto. Qed.

Lemma well_keyed_empty_frame : well_keyed_frame empty_frame.
Proof. intros n k fn H. simpl in H. by rewrite lookup_empty in H. Qed.

Ltac keys_frame_op lem :=
  let fs := fresh "fs" in
  let Hwk := fresh "Hwk" in
  intros [fs ?] ? ? Hwk; destruct (frames_snoc_or_nil fs) as [->|(? & ? & ->)];
  [intros [= <- <-]; by split_and!
  | rewrite lem; simpl; apply well_keyed_snoc in Hwk as [? ?];
    repeat case_match; intros [= <- <-];
    (split_and!; [apply well_keyed_snoc; split; [done|]|done|done])].

Lemma keeps_keys_push_var var v : keeps_keys (λ _, True) (push_var var v).
Proof. keys_frame_op push_var_snoc; done. Qed.

Lemma keeps_keys_pop_var var : keeps_keys (λ _, True) (pop_var var).
Proof. keys_frame_op pop_var_snoc; done. Qed.

Lemma keeps_keys_push_function fn : keeps_keys (λ _, True) (push_function fn).
Proof.
  keys_frame_op push_function_snoc; [done|].
  intros n k g. simpl. intros [[[= <- <-] <-]|[_ Hg]]%lookup_insert_Some; [done|].
  match goal with Hf : well_keyed_frame _ |- _ => by eapply Hf end.
Qed.

Lemma keeps_keys_pop_function fn : keeps_keys (λ _, True) (pop_function fn).
Proof.
  keys_frame_op pop_function_snoc; [|done].
  intros n k g. simpl. intros [_ Hg]%lookup_delete_Some.
  match goal with Hf : well_keyed_frame _ |- _ => by eapply Hf end.
Qed.

Lemma keeps_keys_push_stack_frame : keeps_keys (λ _, True) push_stack_frame.
Proof.
  intros s o s' Hwk [= <- <-]. split_and!; [|done|done].
  unfold well_keyed in *. simpl. apply Forall_app. split; [done|].
  apply Forall_singleton, well_keyed_empty_frame.
Qed.

Lemma keeps_keys_pop_stack_frame : keeps_keys (λ _, True) pop_stack_frame.
Proof.
  intros [fs a] o s' Hwk. destruct (frames_snoc_or_nil fs) as [->|(fs' & f & ->)].
  - intros [= <- <-]. by split_and!.
  - rewrite pop_stack_frame_snoc. intros [= <- <-].
    apply well_keyed_snoc in Hwk as [? ?]. by split_and!.
Qed.

Lemma keeps_keys_get_var var : keeps_keys (λ _, True) (get_var var).
Proof.
  intros s o s' Hwk H. pose proof (get_var_state _ _ _ _ H) as ->.
  split_and!; [done| |done]. intros ->. revert H.
  destruct (frames_snoc_or_nil (stack_frames s)) as [Hnil|(fs & f & Hs)].
  - unfold get_var, bind, current_stack_frame. by rewrite Hnil.
  - rewrite get_var_spec by (rewrite Hs; by destruct fs).
    by destruct (first_binding _ _).
Qed.

Lemma first_binding_Some {A} (look : Frame → option A) fs x :
  first_binding look fs = Some x → ∃ f, f ∈ fs ∧ look f = Some x.
Proof.
  induction fs as [|g fs IH]; simpl; [done|].
  destruct (look g) eqn:E.
  - intros [= <-]. exists g. split; [apply list_elem_of_here|done].
  - intros (f & Hf & Hx)%IH. exists f. split; [by apply list_elem_of_further|done].
Qed.

(** In a well-keyed state [get_function] answers functions of the arity
    it was asked for. *)
Lemma keeps_keys_get_function var argn :
  keeps_keys (λ fn, length (fn_args fn) = argn) (get_function var argn).
Proof.
  intros s o s' Hwk H. pose proof (get_function_state _ _ _ _ _ H) as ->.
  revert H. destruct (frames_snoc_or_nil (stack_frames s)) as [Hnil|(fs & f & Hs)].
  - unfold get_function, bind, current_stack_frame. rewrite Hnil. simpl.
    intros [= <-]. by split_and!.
  - rewrite get_function_spec by (rewrite Hs; by destruct fs).
    destruct (first_binding _ _) as [fn|] eqn:Hfb; intros [= <-];
      (split_and!; [done|done|]); [|done].
    intros x [= <-]. apply first_binding_Some in Hfb as (g & Hg & Hfn).
    rewrite elem_of_reverse in Hg. unfold well_keyed in Hwk.
    rewrite Forall_forall in Hwk. by destruct (Hwk g Hg _ _ _ Hfn).
Qed.

Lemma keeps_keys_push_args (args : list Var) (vs : list Obj) :
  keeps_keys (λ _, True) (push_args args vs).
Proof.
  apply (keeps_keys_bind (λ _, True)).
  { unfold py_assert. destruct (bool_decide _);
      [by apply keeps_keys_ret|by apply keeps_keys_raise]. }
  intros _ _. revert vs. induction args as [|x args IH]; intros [|v vs]; simpl;
    try by apply keeps_keys_ret.
  apply (keeps_keys_bind (λ _, True)); [apply keeps_keys_push_var|by intros _ _].
Qed.

Lemma keeps_keys_pop_args (args : list Var) : keeps_keys (λ _, True) (pop_args args).
Proof.
  induction args as [|x args IH]; simpl; [by apply keeps_keys_ret|].
  apply (keeps_keys_bind (λ _, True)); [apply keeps_keys_pop_var|]. intros v _.
  apply (keeps_keys_bind (λ _, True)); [done|]. intros vs _. by apply keeps_keys_ret.
Qed.

Lemma keeps_keys_clear_args fn : keeps_keys (λ _, True) (clear_args fn).
Proof. intros s o s' Hwk [= <- <-]. by split_and!. Qed.

(** Arming with as many arguments as the function has parameters cannot
    raise. *)
Lemma keeps_keys_set_args fn (vs : list Obj) :
  length vs = length (fn_args fn) → keeps_keys (λ _, True) (set_args fn vs).
Proof.
  intros Hlen s o s' Hwk. unfold set_args. rewrite decide_False by (by intros ?).
  intros [= <- <-]. by split_and!.
Qed.

Lemma keeps_keys_armed (ev : Expr → M Obj) fn argv :
  keeps_keys (λ _, True) (ev (fn_body fn)) →
  keeps_keys (λ _, True) (Function_eval_armed ev fn argv).
Proof.
  intros Hev. unfold Function_eval_armed.
  apply (keeps_keys_bind (λ _, True)).
  { destruct (is_lambda fn); [by apply keeps_keys_ret|apply keeps_keys_push_stack_frame]. }
  intros _ _. apply (keeps_keys_bind (λ _, True)); [apply keeps_keys_push_args|].
  intros _ _. apply (keeps_keys_bind (λ _, True)); [done|].
  intros r _. apply (keeps_keys_bind (λ _, True)); [apply keeps_keys_clear_args|].
  intros _ _. apply (keeps_keys_bind (λ _, True)); [apply keeps_keys_pop_args|].
  intros _ _. apply (keeps_keys_bind (λ _, True)); [|intros _ _; by apply keeps_keys_ret].
  destruct (is_lambda fn); [by apply keeps_keys_ret|].
  apply (keeps_keys_bind (λ _, True)); [apply keeps_keys_pop_stack_frame|].
  intros _ _. by apply keeps_keys_ret.
Qed.

Lemma keeps_keys_Function_eval (ev : Expr → M Obj) fn :
  keeps_keys (λ _, True) (ev (fn_body fn)) →
  keeps_keys (λ _, True) (Function_eval ev fn).
Proof.
  intros Hev s o s' Hwk. unfold Function_eval.
  destruct (fn_argv s !! fn_id fn) as [argv|].
  - by apply keeps_keys_armed.
  - intros [= <- <-]. by split_and!.
Qed.

Lemma keeps_keys_map_eval (ev : Expr → M Obj) es :
  (∀ e, keeps_keys (λ _, True) (ev e)) →
  keeps_keys (λ vs, length vs = length es) (map_eval ev es).
Proof.
  intros Hev. induction es as [|e es IH]; simpl; [by apply keeps_keys_ret|].
  apply (keeps_keys_bind (λ _, True)); [done|]. intros v _.
  apply (keeps_keys_bind (λ vs, length vs = length es)); [done|]. intros vs Hvs.
  apply keeps_keys_ret. simpl. by rewrite Hvs.
Qed.

Lemma keeps_keys_eval fuel : ∀ e, keeps_keys (λ _, True) (eval fuel e).
Proof.
  induction fuel as [|fuel IH]; intros e.
  { intros s o s' Hwk [= <- <-]. by split_and!. }
  destruct e; simpl.
  - by apply keeps_keys_raise.
  - by apply keeps_keys_ret.
  - apply keeps_keys_get_var.
  - apply (keeps_keys_bind (λ _, True)); [done|]. intros l _.
    apply (keeps_keys_bind (λ _, True)); [done|]. intros r _.
    apply (keeps_keys_bind (λ _, True)).
    + destruct l, r; simpl; (by apply keeps_keys_ret) || (by apply keeps_keys_raise).
    + intros [x|z] _; [by apply keeps_keys_ret|by apply keeps_keys_raise].
  - apply (keeps_keys_bind (λ _, True)); [done|]. intros o _.
    apply (keeps_keys_bind (λ _, True)); [|intros v _; by apply keeps_keys_ret].
    destruct o; simpl; (by apply keeps_keys_ret) || (by apply keeps_keys_raise).
  - apply (keeps_keys_bind (λ _, True)); [done|]. intros l _.
    apply (keeps_keys_bind (λ _, True)); [done|]. intros r _.
    destruct l, r; simpl; (by apply keeps_keys_ret) || (by apply keeps_keys_raise).
  - apply (keeps_keys_bind (λ _, True)); [apply keeps_keys_push_function|]. intros _ _.
    apply (keeps_keys_bind (λ _, True)); [done|]. intros r _.
    apply (keeps_keys_bind (λ _, True)); [apply keeps_keys_pop_function|]. intros _ _.
    by apply keeps_keys_ret.
  - apply (keeps_keys_bind (λ _, True)); [done|]. intros v _.
    apply (keeps_keys_bind (λ _, True)); [apply keeps_keys_push_var|]. intros _ _.
    apply (keeps_keys_bind (λ _, True)); [done|]. intros r _.
    apply (keeps_keys_bind (λ _, True)); [apply keeps_keys_pop_var|]. intros _ _.
    by apply keeps_keys_ret.
  - eapply keeps_keys_bind; [apply keeps_keys_get_function|]. intros fn Hfn.
    eapply keeps_keys_bind; [by apply keeps_keys_map_eval|]. intros vs Hvs.
    apply (keeps_keys_bind (λ _, True)); [apply keeps_keys_set_args; congruence|].
    intros _ _. by apply keeps_keys_Function_eval.
  - apply (keeps_keys_bind (λ _, True)); [done|]. intros c _.
    destruct (truthy c); apply IH.
Qed.

Lemma keeps_keys_run fuel (statements : list Statement) :
  keeps_keys (λ _, True) (run fuel statements).
Proof.
  induction statements as [|st sts IH]; simpl; [by apply keeps_keys_ret|].
  apply (keeps_keys_bind (λ _, True)); [|by intros _ _].
  destruct st as [fn|e|]; simpl.
  - apply keeps_keys_push_function.
  - destruct e; simpl; try by apply keeps_keys_raise.
    apply (keeps_keys_bind (λ _, True)); [apply keeps_keys_eval|].
    intros _ _. by apply keeps_keys_ret.
  - by apply keeps_keys_raise.
Qed.
End keys.

(** X17. The arity check of [set_args] is never the one that fails.  In
    a state where every function sits under its own name and arity -- the
    only kind [push_function] builds -- an evaluation ends in such a state
    again, on every outcome, and never raises the wrong-number-of-arguments
    exception: a call resolves its function by the number of its argument
    expressions, so the function found has that many parameters. *)
Theorem arity_check_never_fails (fuel : nat) (e : Expr) (s s' : State) (o : Outcome Obj) :
  well_keyed s →
  eval fuel e s = (o, s') →
  well_keyed s' ∧ o ≠ Raise wrong_number.
Proof.
  intros Hwk H. destruct (keeps_keys_eval fuel e s o s' Hwk H) as (? & ? & _). done.
Qed.

Lemma arity_check_never_fails_witness :
  well_keyed sum_registered ∧ Ok (Value 9 E) ≠ Raise wrong_number.
Proof.
  assert (well_keyed sum_registered) as Hwk.
  { apply Forall_singleton. intros n k fn H. simpl in H.
    apply lookup_singleton_Some in H as [[= <- <-] <-]. done. }
  assert (eval 3 call_sum sum_registered = (Ok (Value 9 E), sum_registered)) as H
    by (vm_compute; reflexivity).
  exact (arity_check_never_fails 3 call_sum sum_registered sum_registered _ Hwk H).
Defined.

(** X18. A program run from a fresh context keeps every function under
    its own name and arity and never raises the wrong-number-of-arguments
    exception, whatever its statements are and however the run ends. *)
Theorem run_keeps_functions_keyed (fuel : nat) (statements : list Statement)
    (s' : State) (o : Outcome unit) :
  run fuel statements Context_init = (o, s') →
  well_keyed s' ∧ o ≠ Raise wrong_number.
Proof.
  intros H.
  assert (well_keyed Context_init) as Hwk
    by apply Forall_singleton, well_keyed_empty_frame.
  destruct (keeps_keys_run fuel statements Context_init o s' Hwk H) as (? & ? & _). done.
Qed.

Lemma run_keeps_functions_keyed_witness :
  well_keyed sum_registered ∧ Ok tt ≠ Raise wrong_number.
Proof.
  assert (run 1 [StFunction sum_fn] Context_init = (Ok tt, sum_registered)) as H
    by (vm_compute; reflexivity).
  exact (run_keeps_functions_keyed 1 [StFunction sum_fn] sum_registered _ H).
Defined.

(** ** Programs of function declarations *)

Lemma run_functions_snoc (fuel : nat) (fns : list Function) :
  ∀ (fs : list Frame) (f : Frame) (a : gmap positive (list Obj)),
    NoDup (fn_key <$> fns) →
    (∀ fn, fn ∈ fns → functions f !! fn_key fn = None) →
    ∃ f', run fuel (StFunction <$> fns) (mkState (fs ++ [f]) a) =
            (Ok tt, mkState (fs ++ [f']) a) ∧
          (∀ fn, fn ∈ fns → functions f' !! fn_key fn = Some fn) ∧
          (∀ k, k ∉ fn_key <$> fns → functions f' !! k = functions f !! k).
Proof.
  induction fns as [|fn fns IH]; intros fs f a Hnd Hfresh.
  - exists f. split_and!; [done| |done]. intros fn Hfn. by apply elem_of_nil in Hfn.
  - rewrite fmap_cons in Hnd. apply NoDup_cons in Hnd as [Hfn Hnd].
    change (run fuel (StFunction <$> fn :: fns))
      with (push_function fn ;;; run fuel (StFunction <$> fns)).
    unfold bind. rewrite push_function_snoc. simpl.
    change (name (fn_name fn), length (fn_args fn)) with (fn_key fn).
    rewrite (Hfresh fn) by apply list_elem_of_here.
    destruct (IH fs (mkFrame (variables f) (<[fn_key fn := fn]> (functions f))) a Hnd)
      as (f' & Hrun & Hin & Hout).
    { intros g Hg. simpl. rewrite lookup_insert_ne.
      - apply Hfresh. by apply list_elem_of_further.
      - intros Heq. apply Hfn. rewrite Heq. apply list_elem_of_fmap. eauto. }
    exists f'. split_and!; [done| |].
    + intros g [->|Hg]%elem_of_cons; [|by apply Hin].
      rewrite (Hout _ Hfn). simpl. by rewrite lookup_insert_eq.
    + intros k Hk. apply not_elem_of_cons in Hk as [Hk1 Hk2].
      rewrite (Hout _ Hk2). simpl. by rewrite lookup_insert_ne.
Qed.

(** X19. A program made of function declarations with pairwise different
    [(name, arity)] keys runs to the end from a fresh context, and
    afterwards every declared function is resolved by [get_function] under
    its name and arity. *)
Theorem run_registers_functions (fuel : nat) (fns : list Function) :
  NoDup (fn_key <$> fns) →
  ∃ s', run fuel (StFunction <$> fns) Context_init = (Ok tt, s') ∧
        ∀ fn, fn ∈ fns →
          get_function (fn_name fn) (length (fn_args fn)) s' = (Ok fn, s').
Proof.
  intros Hnd.
  destruct (run_functions_snoc fuel fns [] empty_frame ∅ Hnd) as (f' & Hrun & Hin & _).
  { intros fn _. apply lookup_empty. }
  eexists. split; [exact Hrun|]. intros fn Hfn.
  rewrite get_function_spec by done. simpl.
  change (name (fn_name fn), length (fn_args fn)) with (fn_key fn).
  by rewrite (Hin fn Hfn).
Qed.

Lemma run_registers_functions_witness :
  ∃ s', run 0 (StFunction <$> [sum_fn; sum1_fn]) Context_init = (Ok tt, s') ∧
        ∀ fn, fn ∈ [sum_fn; sum1_fn] →
          get_function (fn_name fn) (length (fn_args fn)) s' = (Ok fn, s').
Proof.
  apply run_registers_functions. simpl. apply NoDup_cons. split.
  - intros H%list_elem_of_singleton. discriminate H.
  - apply NoDup_singleton.
Defined.

(** ** Kinds of objects *)

(** X20. What a node returns, when it returns: an [AdditiveExpr] a
    [Value] carrying the span of the node, a [ComparisonExpr] and a
    [ConditionExpr] a raw boolean. *)
Theorem result_kinds (fuel : nat) (s s' : State) (r : Obj) :
  (∀ lhs op rhs span, eval fuel (AdditiveExpr lhs op rhs span) s = (Ok r, s') →
     ∃ x, r = Value x span) ∧
  (∀ lhs op rhs span, eval fuel (ComparisonExpr lhs op rhs span) s = (Ok r, s') →
     ∃ b, r = PyBool b) ∧
  (∀ condition span, eval fuel (ConditionExpr condition span) s = (Ok r, s') →
     ∃ b, r = PyBool b).
Proof.
  destruct fuel as [|fuel]; [by split_and!|]. split_and!.
  - intros lhs op rhs span. simpl. unfold bind.
    destruct (eval fuel lhs s) as [[l|?|] s1]; try done.
    destruct (eval fuel rhs s1) as [[r0|?|] s2]; try done.
    destruct l, r0; simpl; try done. intros [= <- _]. eauto.
  - intros lhs op rhs span. simpl. unfold bind.
    destruct (eval fuel lhs s) as [[l|?|] s1]; try done.
    destruct (eval fuel rhs s1) as [[r0|?|] s2]; try done.
    destruct l, r0; simpl; try done; intros [= <- _]; eauto.
  - intros condition span. simpl. unfold bind.
    destruct (eval fuel condition s) as [[c|?|] s1]; try done.
    destruct c; simpl; try done. intros [= <- _]. eauto.
Qed.

Lemma result_kinds_witness : ∃ x, Value 8 E = Value x E.
Proof.
  assert (eval 2 (AdditiveExpr (ValueE 4 E) ADDITION (ValueE 4 E) E) Context_init =
            (Ok (Value 8 E), Context_init)) as H by (vm_compute; reflexivity).
  exact (proj1 (result_kinds 2 Context_init Context_init (Value 8 E)) _ _ _ _ H).
Defined.

(** X21. Booleans are not numbers for the operators.  With both operands
    evaluated, an [AdditiveExpr] with a boolean operand raises -- a
    [TypeError] for a boolean on the left of a [Value], an
    [AttributeError] for a [Value] on the left of a boolean, the failed
    assertion for two booleans -- and a [ComparisonExpr] of a [Value] with
    a boolean, in either order, raises the [AttributeError]; the state is
    the one the right operand left. *)
Theorem operators_reject_booleans (fuel : nat) (lhs rhs : Expr) (span : Span)
    (s s1 s2 : State) (l r : Obj) :
  eval fuel lhs s = (Ok l, s1) →
  eval fuel rhs s1 = (Ok r, s2) →
  (∀ op b, l = PyBool b ∨ r = PyBool b →
     ∃ e, eval (S fuel) (AdditiveExpr lhs op rhs span) s = (Raise e, s2) ∧
          e = match l, r with
              | PyBool _, PyBool _ => AssertionError
              | PyBool _, Value _ _ =>
                  TypeError "unsupported operand type(s) for +: 'bool' and 'Value'"
              | _, _ => AttributeError "'bool' object has no attribute 'value'"
              end) ∧
  (∀ op b x sp, l = PyBool b ∧ r = Value x sp ∨ l = Value x sp ∧ r = PyBool b →
     eval (S fuel) (ComparisonExpr lhs op rhs span) s =
       (Raise (AttributeError "'bool' object has no attribute 'value'"), s2)).
Proof.
  intros Hl Hr. split.
  - intros op b Hb.
    change (eval (S fuel) (AdditiveExpr lhs op rhs span))
      with (lhs_value <- eval fuel lhs ;; rhs_value <- eval fuel rhs ;;
            new_value <- py_add lhs_value rhs_value ;;
            match new_value with
            | PyFloat f => ret (Value f span)
            | PyInt _ => raise AssertionError
            end).
    rewrite (bind_Ok _ _ _ _ _ Hl), (bind_Ok _ _ _ _ _ Hr).
    destruct l, r; destruct Hb as [Hb|Hb]; try discriminate Hb; eauto.
  - intros op b x sp Hb.
    change (eval (S fuel) (ComparisonExpr lhs op rhs span))
      with (l <- eval fuel lhs ;; r <- eval fuel rhs ;; py_compare op l r).
    rewrite (bind_Ok _ _ _ _ _ Hl), (bind_Ok _ _ _ _ _ Hr).
    by destruct Hb as [[-> ->]|[-> ->]].
Qed.

Lemma operators_reject_booleans_witness :
  eval 3 (ComparisonExpr (ComparisonExpr (ValueE 0 E) LT (ValueE 1 E) E) LT (ValueE 2 E) E)
       Context_init =
    (Raise (AttributeError "'bool' object has no attribute 'value'"), Context_init).
Proof.
  assert (eval 2 (ComparisonExpr (ValueE 0 E) LT (ValueE 1 E) E) Context_init =
            (Ok (PyBool true), Context_init)) as Hl by (vm_compute; reflexivity).
  assert (eval 2 (ValueE 2 E) Context_init = (Ok (Value 2 E), Context_init)) as Hr
    by reflexivity.
  apply (proj2 (operators_reject_booleans 2 _ _ E _ _ _ _ _ Hl Hr) LT true 2%float E).
  left. split; reflexivity.
Defined.

(** X22. [IfExpr] evaluates its condition and then exactly one branch, in
    the state the condition left: the result and the final state are those
    of that branch alone.  A raw boolean selects by its value; a [Value]
    used as the condition without a [ConditionExpr] around it is always
    taken as true, whatever its number. *)
Theorem IfExpr_takes_one_branch (fuel : nat) (condition true_expr false_expr : Expr)
    (span : Span) (s s1 : State) (c : Obj) :
  eval fuel condition s = (Ok c, s1) →
  eval (S fuel) (IfExpr condition true_expr false_expr span) s =
    match c with
    | PyBool false => eval fuel false_expr s1
    | PyBool true => eval fuel true_expr s1
    | Value _ _ => eval fuel true_expr s1
    end.
Proof.
  intros Hc.
  change (eval (S fuel) (IfExpr condition true_expr false_expr span))
    with (c <- eval fuel condition ;;
          if truthy c then eval fuel true_expr else eval fuel false_expr).
  rewrite (bind_Ok _ _ _ _ _ Hc). by destruct c as [v sp|[]].
Qed.

Lemma IfExpr_takes_one_branch_witness :
  eval 2 (IfExpr (ValueE 0 E) (ValueE 1 E) (ValueE 2 E) E) Context_init =
    (Ok (Value 1 E), Context_init).
Proof.
  assert (eval 1 (ValueE 0 E) Context_init = (Ok (Value 0 E), Context_init)) as Hc
    by reflexivity.
  exact (IfExpr_takes_one_branch 1 (ValueE 0 E) (ValueE 1 E) (ValueE 2 E) E
           Context_init Context_init (Value 0 E) Hc).
Defined.

(** ** Arming and disarming *)

Lemma pop_var_argv (var : Var) (s s' : State) (o : Outcome Obj) :
  pop_var var s = (o, s') → fn_argv s' = fn_argv s.
Proof.
  destruct s as [fs a]. destruct (frames_snoc_or_nil fs) as [->|(fs' & f & ->)].
  - by intros [= _ <-].
  - rewrite pop_var_snoc. destruct (variables f !! name var); by intros [= _ <-].
Qed.

Lemma pop_args_argv (args : list Var) : ∀ (s s' : State) (o : Outcome (list Obj)),
  pop_args args s = (o, s') → fn_argv s' = fn_argv s.
Proof.
  induction args as [|x args IH]; intros s s' o; simpl.
  - by intros [= _ <-].
  - unfold bind. destruct (pop_var x s) as [[v|e|] s1] eqn:E1;
      apply pop_var_argv in E1; try by intros [= _ <-].
    destruct (pop_args args s1) as [[vs|e|] s2] eqn:E2;
      apply IH in E2; intros [= _ <-]; congruence.
Qed.

Lemma pop_stack_frame_argv (s s' : State) (o : Outcome Frame) :
  pop_stack_frame s = (o, s') → fn_argv s' = fn_argv s.
Proof.
  unfold pop_stack_frame. destruct (last (stack_frames s)); by intros [= _ <-].
Qed.

(** X23. A call that returns leaves its function disarmed, lambda or
    not: the [argv] attribute is empty again, so that invoking
    [Function.eval] without a new [set_args] trips its assertion and
    changes nothing. *)
Theorem returning_call_disarms (ev ev' : Expr → M Obj) (fn : Function) (vs : list Obj)
    (s s' : State) (r : Obj) :
  call ev fn vs s = (Ok r, s') →
  fn_argv s' !! fn_id fn = None ∧
  Function_eval ev' fn s' = (Raise AssertionError, s').
Proof.
  intros H.
  assert (fn_argv s' !! fn_id fn = None) as Hnone.
  { revert H. unfold call, bind at 1, set_args.
    destruct (decide _); [done|]. unfold Function_eval. simpl.
    rewrite lookup_insert_eq. unfold Function_eval_armed, bind.
    destruct ((if is_lambda fn then ret () else push_stack_frame) _) as [[[]|?|] s0];
      try done.
    destruct (push_args _ _ s0) as [[[]|?|] s1]; try done.
    destruct (ev _ s1) as [[r'|?|] s2]; try done.
    unfold clear_args at 1.
    destruct (pop_args _ _) as [[vs'|?|] s3] eqn:Hpop; try done.
    apply pop_args_argv in Hpop. simpl in Hpop.
    destruct (is_lambda fn).
    - unfold ret. intros [= _ <-]. rewrite Hpop. apply lookup_delete_eq.
    - destruct (pop_stack_frame s3) as [[f|?|] s4] eqn:Hframe; try done.
      apply pop_stack_frame_argv in Hframe.
      unfold ret. intros [= _ <-]. rewrite Hframe, Hpop. apply lookup_delete_eq. }
  split; [done|]. unfold Function_eval. by rewrite Hnone.
Qed.

Lemma returning_call_disarms_witness :
  fn_argv sum_registered !! fn_id sum_fn = None ∧
  Function_eval (eval 2) sum_fn sum_registered = (Raise AssertionError, sum_registered).
Proof.
  assert (call (eval 2) sum_fn [Value 4 E; Value 5 E] sum_registered =
            (Ok (Value 9 E), sum_registered)) as H by (vm_compute; reflexivity).
  exact (returning_call_disarms (eval 2) (eval 2) sum_fn [Value 4 E; Value 5 E]
           sum_registered sum_registered (Value 9 E) H).
Defined.

(** ** The depth bound *)

Section fuel.
Implicit Types (s : State) (fn : Function).

Lemma fuel_le_refl {A} (m : M A) : fuel_le m m.
Proof. by intros s o s' H _. Qed.

Lemma fuel_le_bind {A B} (m1 m2 : M A) (c1 c2 : A → M B) :
  fuel_le m1 m2 → (∀ x, fuel_le (c1 x) (c2 x)) → fuel_le (bind m1 c1) (bind m2 c2).
Proof.
  intros Hm Hc s o s'. unfold bind.
  destruct (m1 s) as [[x|e|] s1] eqn:E.
  - rewrite (Hm _ _ _ E) by done. apply Hc.
  - rewrite (Hm _ _ _ E) by done. done.
  - by intros [= <- <-] Hne.
Qed.

Lemma fuel_le_map_eval (ev1 ev2 : Expr → M Obj) es :
  (∀ e, fuel_le (ev1 e) (ev2 e)) → fuel_le (map_eval ev1 es) (map_eval ev2 es).
Proof.
  intros Hev. induction es as [|e es IH]; simpl; [apply fuel_le_refl|].
  apply fuel_le_bind; [done|]. intros v.
  apply fuel_le_bind; [done|]. intros vs. apply fuel_le_refl.
Qed.

Lemma fuel_le_Function_eval (ev1 ev2 : Expr → M Obj) fn :
  (∀ e, fuel_le (ev1 e) (ev2 e)) → fuel_le (Function_eval ev1 fn) (Function_eval ev2 fn).
Proof.
  intros Hev s o s'. unfold Function_eval.
  destruct (fn_argv s !! fn_id fn) as [argv|]; [|done].
  revert s o s'. change (fuel_le (Function_eval_armed ev1 fn argv)
                                 (Function_eval_armed ev2 fn argv)).
  unfold Function_eval_armed.
  apply fuel_le_bind; [apply fuel_le_refl|]. intros _.
  apply fuel_le_bind; [apply fuel_le_refl|]. intros _.
  apply fuel_le_bind; [done|]. intros r. apply fuel_le_refl.
Qed.

Lemma fuel_le_eval_S (n m : nat) :
  (∀ e, fuel_le (eval n e) (eval m e)) → ∀ e, fuel_le (eval (S n) e) (eval (S m) e).
Proof.
  intros IH e. destruct e; simpl; try apply fuel_le_refl.
  - apply fuel_le_bind; [done|]. intros l.
    apply fuel_le_bind; [done|]. intros r. apply fuel_le_refl.
  - apply fuel_le_bind; [done|]. intros o. apply fuel_le_refl.
  - apply fuel_le_bind; [done|]. intros l.
    apply fuel_le_bind; [done|]. intros r. apply fuel_le_refl.
  - apply fuel_le_bind; [apply fuel_le_refl|]. intros _.
    apply fuel_le_bind; [done|]. intros r. apply fuel_le_refl.
  - apply fuel_le_bind; [done|]. intros v.
    apply fuel_le_bind; [apply fuel_le_refl|]. intros _.
    apply fuel_le_bind; [done|]. intros r. apply fuel_le_refl.
  - apply fuel_le_bind; [apply fuel_le_refl|]. intros fn.
    apply fuel_le_bind; [by apply fuel_le_map_eval|]. intros vs.
    apply fuel_le_bind; [apply fuel_le_refl|]. intros _.
    by apply fuel_le_Function_eval.
  - apply fuel_le_bind; [done|]. intros c. by destruct (truthy c).
Qed.

Lemma fuel_le_eval (n : nat) : ∀ e, fuel_le (eval n e) (eval (S n) e).
Proof.
  induction n as [|n IH]; [by intros e s o s' [= <- <-] Hne|].
  by apply fuel_le_eval_S.
Qed.
End fuel.

(** X24. The answer of an evaluation does not depend on the depth bound:
    once [eval] comes to a result or to an exception within some depth,
    it comes to the same outcome and the same state within every larger
    depth. *)
Theorem eval_answer_is_stable (fuel k : nat) (e : Expr) (s s' : State) (o : Outcome Obj) :
  eval fuel e s = (o, s') →
  o ≠ OutOfFuel →
  eval (fuel + k) e s = (o, s').
Proof.
  intros H Hne. induction k as [|k IH].
  - by rewrite Nat.add_0_r.
  - rewrite Nat.add_succ_r. by apply fuel_le_eval.
Qed.

Lemma eval_answer_is_stable_witness :
  eval (14 + 100) (FunctionCall (var_ "f") [ValueE 0 E] E) rec_registered =
    (Ok (Value 6 E), rec_registered).
Proof.
  assert (eval 14 (FunctionCall (var_ "f") [ValueE 0 E] E) rec_registered =
            (Ok (Value 6 E), rec_registered)) as H by (vm_compute; reflexivity).
  apply (eval_answer_is_stable 14 100 _ _ _ _ H). discriminate.
Defined.

(** ** Expressions without calls *)

Section answers.
Implicit Types (s : State) (fs : list Frame) (f : Frame) (var : Var) (fn : Function).

Lemma answers_ret {A} (x : A) : answers (ret x).
Proof. by intros s. Qed.

Lemma answers_raise {A} e : answers (@raise A e).
Proof. by intros s. Qed.

Lemma answers_bind {A B} (m : M A) (c : A → M B) :
  answers m → (∀ x, answers (c x)) → answers (bind m c).
Proof.
  intros Hm Hc s. unfold bind. specialize (Hm s).
  destruct (m s) as [[x|e|] s1]; [apply Hc|done|done].
Qed.

Ltac answers_frame_op lem :=
  let fs := fresh "fs" in
  intros [fs ?]; destruct (frames_snoc_or_nil fs) as [->|(? & ? & ->)];
  [done | rewrite lem; simpl; repeat case_match; done].

Lemma answers_push_var var v : answers (push_var var v).
Proof. answers_frame_op push_var_snoc. Qed.

Lemma answers_pop_var var : answers (pop_var var).
Proof. answers_frame_op pop_var_snoc. Qed.

Lemma answers_push_function fn : answers (push_function fn).
Proof. answers_frame_op push_function_snoc. Qed.

Lemma answers_pop_function fn : answers (pop_function fn).
Proof. answers_frame_op pop_function_snoc. Qed.

Lemma answers_get_var var : answers (get_var var).
Proof.
  intros s. destruct (frames_snoc_or_nil (stack_frames s)) as [Hnil|(fs & f & Hs)].
  - unfold get_var, bind, current_stack_frame. by rewrite Hnil.
  - rewrite get_var_spec by (rewrite Hs; by destruct fs).
    by destruct (first_binding _ _).
Qed.

Lemma answers_eval (fuel : nat) : ∀ e,
  call_free e = true → (height e ≤ fuel)%nat → answers (eval fuel e).
Proof.
  induction fuel as [|fuel IH]; intros e Hfree Hh.
  { destruct e; simpl in Hh; lia. }
  destruct e; simpl in *; try done;
    repeat match goal with
           | H : _ && _ = true |- _ => apply andb_prop in H as [? ?]
           end.
  - apply answers_get_var.
  - apply answers_bind; [apply IH; [done|lia]|]. intros l.
    apply answers_bind; [apply IH; [done|lia]|]. intros r.
    apply answers_bind; [by destruct l, r|]. by intros [x|z].
  - apply answers_bind; [apply IH; [done|lia]|]. intros o.
    apply answers_bind; [by destruct o|]. by intros v.
  - apply answers_bind; [apply IH; [done|lia]|]. intros l.
    apply answers_bind; [apply IH; [done|lia]|]. intros r. by destruct l, r.
  - apply answers_bind; [apply answers_push_function|]. intros _.
    apply answers_bind; [apply IH; [done|lia]|]. intros r.
    apply answers_bind; [apply answers_pop_function|]. by intros _.
  - apply answers_bind; [apply IH; [done|lia]|]. intros v.
    apply answers_bind; [apply answers_push_var|]. intros _.
    apply answers_bind; [apply IH; [done|lia]|]. intros r.
    apply answers_bind; [apply answers_pop_var|]. by intros _.
  - apply answers_bind; [apply IH; [done|lia]|]. intros c.
    destruct (truthy c); apply IH; (done || lia).
Qed.
End answers.

(** X25. Only calls can make an evaluation run without bound: an
    expression that contains no [FunctionCall] outside the bodies of its
    lambdas comes to a result or to an exception as soon as the depth
    bound reaches the nesting depth of the expression, in every state. *)
Theorem call_free_evaluation_ends (fuel : nat) (e : Expr) (s : State) :
  call_free e = true →
  (height e ≤ fuel)%nat →
  (eval fuel e s).1 ≠ OutOfFuel.
Proof. intros Hfree Hh. by apply answers_eval. Qed.

Lemma call_free_evaluation_ends_witness :
  (eval 3 let_unbound Context_init).1 ≠ OutOfFuel.
Proof.
  apply call_free_evaluation_ends; [reflexivity|]. simpl. lia.
Defined.

(** ** Scoping across calls *)

(** X26. Dynamic scoping across a call.  In the body of a non-lambda
    function a variable that names a parameter reads the argument of this
    call, also when the caller binds the same name; any other variable is
    looked up in the frames of the callers, as it would be at the call
    site. *)
Theorem callee_reads_caller_variables (fuel : nat) (fn : Function) (vs : list Obj)
    (s : State) (var : Var) :
  is_lambda fn = false →
  length vs = length (fn_args fn) →
  NoDup (name <$> fn_args fn) →
  stack_frames s ≠ [] →
  fn_body fn = VarE var →
  (call (eval (S fuel)) fn vs s).1 =
    match bind_params (fn_args fn) vs ∅ !! name var with
    | Some v => Ok v
    | None => (get_var var s).1
    end.
Proof.
  intros Hlam Hlen Hnd Hne Hbody. rewrite (state_eta s) at 1.
  rewrite call_non_lambda by done. rewrite Hbody.
  change (eval (S fuel) (VarE var)) with (get_var var).
  rewrite !get_var_spec by (done || (simpl; by destruct (stack_frames s))).
  simpl. rewrite reverse_snoc. simpl.
  destruct (bind_params (fn_args fn) vs ∅ !! name var); [done|].
  by destruct (first_binding _ _).
Qed.

Lemma callee_reads_caller_variables_witness :
  (call (eval 1) reader_fn [Value 3 E] three_frames).1 = Ok (Value 1 E).
Proof.
  assert (NoDup (name <$> fn_args reader_fn)) as Hnd by apply NoDup_singleton.
  assert (stack_frames three_frames ≠ []) as Hne by done.
  etransitivity.
  - exact (callee_reads_caller_variables 0 reader_fn [Value 3 E] three_frames (var_ "y")
             eq_refl eq_refl Hnd Hne eq_refl).
  - vm_compute. reflexivity.
Defined.
